(** * caplog: the capture pipeline, embedded and verified

    A shallow embedding of the Go sources of caplog (packages [packets],
    [dashboard] and [main]) together with the parts of the Go standard
    library ([net]) and of gopacket they call.  Global variables of the Go
    program are explicit arguments, mutable state is passed explicitly, and
    unsigned 64-bit counters are integers reduced modulo [2^64]. *)

From stdpp Require Import base numbers list strings pretty gmap fin_maps.

Local Open Scope Z_scope.

(** ** Machine integers *)

Definition uint64_mod : Z := 2 ^ 64.

(** Addition on [uint64]: Go wraps around silently. *)
Definition add64 (x y : Z) : Z := (x + y) mod uint64_mod.

(** [int64] results are reduced into [[-2^63, 2^63)]. *)
Definition wrap_int64 (x : Z) : Z := (x + 2 ^ 63) mod 2 ^ 64 - 2 ^ 63.

Definition is_byte (b : Z) : Prop := 0 <= b < 256.

(** ** Package [net] of the Go standard library *)

Module net.

(** [net.IP] and [net.IPMask] are byte slices; the nil slice is [[]]. *)
Definition IP := list Z.
Definition IPMask := list Z.

Record IPNet := { net_IP : IP; net_Mask : IPMask }.

Definition IPv4len : nat := 4.
Definition IPv6len : nat := 16.

Definition isZeros (p : list Z) : bool := forallb (Z.eqb 0) p.

(** [ip.To4()]: the 4-byte form of an IPv4 address, [None] for Go's nil. *)
Definition To4 (ip : IP) : option IP :=
  if (length ip =? IPv4len)%nat then Some ip
  else if (length ip =? IPv6len)%nat
          && isZeros (take 10 ip)
          && bool_decide (ip !! 10%nat = Some 255)
          && bool_decide (ip !! 11%nat = Some 255)
       then Some (drop 12 ip)
       else None.

(** [CIDRMask(ones, bits)], as a loop over the [bits / 8] mask bytes. *)
Fixpoint CIDRMask_loop (l : nat) (n : Z) : IPMask :=
  match l with
  | O => []
  | S l' =>
      if 8 <=? n then 255 :: CIDRMask_loop l' (n - 8)
      else (255 - Z.shiftr 255 n) :: CIDRMask_loop l' 0
  end.

Definition CIDRMask (ones : Z) (bits : nat) : IPMask :=
  if negb ((bits =? 8 * IPv4len)%nat || (bits =? 8 * IPv6len)%nat) then []
  else if (ones <? 0) || (Z.of_nat bits <? ones) then []
  else CIDRMask_loop (bits / 8)%nat ones.

(** [networkNumberAndMask(n)]; [None] stands for the pair [(nil, nil)]. *)
Definition networkNumberAndMask (n : IPNet) : option (IP * IPMask) :=
  let ip := match To4 (net_IP n) with Some x => Some x
            | None => if (length (net_IP n) =? IPv6len)%nat
                      then Some (net_IP n) else None
            end in
  match ip with
  | None => None
  | Some ip =>
      let m := net_Mask n in
      if (length m =? IPv4len)%nat then
        if (length ip =? IPv4len)%nat then Some (ip, m) else None
      else if (length m =? IPv6len)%nat then
        if (length ip =? IPv4len)%nat then Some (ip, drop 12 m)
        else Some (ip, m)
      else None
  end.

(** The comparison loop of [Contains]: every byte agrees under the mask. *)
Fixpoint masked_eq (nn : IP) (m : IPMask) (ip : IP) : bool :=
  match nn, m, ip with
  | a :: nn', b :: m', c :: ip' =>
      (Z.land a b =? Z.land c b) && masked_eq nn' m' ip'
  | _, _, _ => true
  end.

(** The form of [ip] that [Contains] compares: 4 bytes when [To4] succeeds. *)
Definition canon (ip : IP) : IP :=
  match To4 ip with Some x => x | None => ip end.

(** [n.Contains(ip)]. *)
Definition Contains (n : IPNet) (ip : IP) : bool :=
  let ip := canon ip in
  match networkNumberAndMask n with
  | None => (length ip =? 0)%nat
  | Some (nn, m) =>
      if (length ip =? length nn)%nat then masked_eq nn m ip else false
  end.

(** The network [net.ParseCIDR] returns for [a.b.c.d/ones] and for an IPv6
    literal [bytes/ones]: the address masked, with a mask of its own size. *)
Definition mask_ip (ip : IP) (m : IPMask) : IP := zip_with Z.land ip m.

Definition cidr (addr : IP) (ones : Z) : IPNet :=
  let m := CIDRMask ones (8 * length addr) in
  {| net_IP := mask_ip addr m; net_Mask := m |}.

End net.

Import net.

(** ** gopacket: endpoints, flows and the decoded layers *)

Module gopacket.

(** The endpoint types the capture meets (a subset of gopacket's). *)
Inductive EndpointType := EndpointInvalid | EndpointIPv4 | EndpointIPv6.

(** An endpoint is its type and its raw bytes; it is a map key in Go. *)
Record Endpoint := NewEndpoint { typ : EndpointType; raw : list Z }.

Definition InvalidEndpoint : Endpoint := NewEndpoint EndpointInvalid [].

Record Flow := NewFlow { flow_typ : EndpointType; flow_src : list Z; flow_dst : list Z }.

(** [f.Endpoints()]. *)
Definition Endpoints (f : Flow) : Endpoint * Endpoint :=
  (NewEndpoint (flow_typ f) (flow_src f), NewEndpoint (flow_typ f) (flow_dst f)).

#[global] Instance EndpointType_eq_dec : EqDecision EndpointType.
Proof. solve_decision. Defined.

#[global] Instance Endpoint_eq_dec : EqDecision Endpoint.
Proof. solve_decision. Defined.

Definition EndpointType_code (t : EndpointType) : nat :=
  match t with EndpointInvalid => 0 | EndpointIPv4 => 1 | EndpointIPv6 => 2 end%nat.

Definition EndpointType_of_code (n : nat) : EndpointType :=
  match n with O => EndpointInvalid | S O => EndpointIPv4 | _ => EndpointIPv6 end.

#[global] Instance Endpoint_countable : Countable Endpoint.
Proof.
  refine (inj_countable'
            (fun e => (EndpointType_code (typ e), raw e))
            (fun p => NewEndpoint (EndpointType_of_code p.1) p.2) _).
  intros [[] r]; reflexivity.
Defined.

(** The layer types the worker's parser is configured with. *)
Inductive LayerType :=
| LayerTypeEthernet | LayerTypeIPv4 | LayerTypeIPv6 | LayerTypeTCP
| LayerTypeUDP | LayerTypeDNS | LayerTypePayload.

End gopacket.

Import gopacket.

Module layers.

(** DNS classes and types are 16-bit codes. *)
Definition DNSClassIN : Z := 1.
Definition DNSTypeA : Z := 1.
Definition DNSTypeCNAME : Z := 5.
Definition DNSTypeAAAA : Z := 28.

(** The fields [Name], [Type], [Class], [IP] and [CNAME] of a resource
    record, the ones the capture reads.  [Name] and [CNAME] are byte
    slices in Go, converted with [string(...)]. *)
Record DNSResourceRecord := {
  rr_Name : string;
  rr_Type : Z;
  rr_Class : Z;
  rr_IP : IP;
  rr_CNAME : string
}.

Record DNS := { Answers : list DNSResourceRecord }.

(** The addresses of an IPv4 or IPv6 header, and the ports of TCP or UDP. *)
Record IPHeader := { hdr_SrcIP : IP; hdr_DstIP : IP }.
Record Ports := { hdr_SrcPort : Z; hdr_DstPort : Z }.

(** [NewIPEndpoint(a)]. *)
Definition NewIPEndpoint (a : IP) : Endpoint :=
  match To4 a with
  | Some ipv4 => NewEndpoint EndpointIPv4 ipv4
  | None =>
      if (length a =? IPv6len)%nat then NewEndpoint EndpointIPv6 a
      else InvalidEndpoint
  end.

(** [ip4.NetworkFlow()] and [ip6.NetworkFlow()]. *)
Definition NetworkFlow4 (h : IPHeader) : Flow :=
  NewFlow EndpointIPv4 (hdr_SrcIP h) (hdr_DstIP h).
Definition NetworkFlow6 (h : IPHeader) : Flow :=
  NewFlow EndpointIPv6 (hdr_SrcIP h) (hdr_DstIP h).

End layers.

Import layers.

(** [strings.Join(elems, sep)]. *)
Fixpoint Join (elems : list string) (sep : string) : string :=
  match elems with
  | [] => ""
  | [a] => a
  | a :: rest => a +:+ sep +:+ Join rest sep
  end.

(** The text of a 4-byte address as [net.IP.String] prints it: its bytes in
    decimal, separated by dots.  It renders the IPv4 endpoints of the
    examples. *)
Definition dotted (e : Endpoint) : string := Join (pretty <$> raw e) ".".

(** ** Package [packets] *)

Module packets.

(** *** classify.go *)

(** [stdLocalNets], the value of each [MustParseCIDR] literal. *)
Definition stdLocalNets : list IPNet :=
  [ cidr [10; 0; 0; 0] 8;                   (* 10.0.0.0/8 *)
    cidr [172; 16; 0; 0] 12;                (* 172.16.0.0/12 *)
    cidr [192; 168; 0; 0] 16;               (* 192.168.0.0/16 *)
    cidr (253 :: replicate 15 0) 8;         (* fd00::/8 *)
    cidr [169; 254; 0; 0] 16;               (* 169.254.0.0/16 *)
    cidr (254 :: 128 :: replicate 14 0) 10; (* fe80::/10 *)
    cidr [0; 0; 0; 0] 32;                   (* 0.0.0.0/32 *)
    cidr [255; 255; 255; 255] 32 ].         (* 255.255.255.255/32 *)

(** [IsLocal(ip)]; the package variable [LocalNetblock] is an argument,
    [None] when it is nil. *)
Definition IsLocal (LocalNetblock : option IPNet) (ip : IP) : bool :=
  if match LocalNetblock with
     | Some nb => Contains nb ip
     | None => false
     end
  then true
  else existsb (fun cidr => Contains cidr ip) stdLocalNets.

(** [local(ip1, ip2)]: the more local of two addresses. *)
Definition local (LocalNetblock : option IPNet) (ip1 ip2 : IP) : IP :=
  if IsLocal LocalNetblock ip1 then ip1 else ip2.

(** *** packets.go: the metadata record *)

Record Metadata := {
  Timestamp : Z;
  Size : Z;
  SrcName : string; DstName : string;
  SrcIP : IP; DstIP : IP;
  SrcPort : Z; DstPort : Z;
  V6 : bool
}.

Definition maxBuffers : nat := 100.

Section with_formatter.

(** [e.String()], the text gopacket prints for an endpoint.  Its
    format plays no role below, so it is left open. *)
Variable EndpointString : Endpoint -> string.

(** *** revdns.go *)

(** The map [rm]; the lock makes each operation below atomic. *)
Definition newReverseDNSMap : gmap Endpoint string := ∅.

Definition name (r : gmap Endpoint string) (e : Endpoint) : string :=
  match r !! e with
  | Some n => n
  | None => EndpointString e
  end.

Definition names (r : gmap Endpoint string) (netFlow : Flow) : string * string :=
  let '(src, dst) := Endpoints netFlow in
  (name r src, name r dst).

Definition len (r : gmap Endpoint string) : nat := size r.

End with_formatter.

(** The first loop of [add]: one answer folded into the two buckets. *)
Definition add_scan_step (acc : gmap string string * gmap Endpoint string)
    (a : DNSResourceRecord) : gmap string string * gmap Endpoint string :=
  let '(cnames, ips) := acc in
  if negb (rr_Class a =? DNSClassIN) then acc
  else if (rr_Type a =? DNSTypeA) || (rr_Type a =? DNSTypeAAAA)
       then (cnames, <[NewIPEndpoint (rr_IP a) := rr_Name a]> ips)
  else if rr_Type a =? DNSTypeCNAME
       then (<[rr_CNAME a := rr_Name a]> cnames, ips)
  else acc.

Definition add_scan (answers : list DNSResourceRecord)
    : gmap string string * gmap Endpoint string :=
  foldl add_scan_step (∅, ∅) answers.

(** The inner loop [for ok := true; ok; n, ok = cnames[n]]: each turn
    appends [n] and looks the next alias up.  [fuel] bounds the number of
    turns; [None] means the loop is still running when it is used up. *)
Fixpoint add_walk (fuel : nat) (cnames : gmap string string) (n : string)
    (names : list string) : option (list string) :=
  match fuel with
  | O => None
  | S fuel' =>
      let names := names ++ [n] in
      match cnames !! n with
      | Some n' => add_walk fuel' cnames n' names
      | None => Some names
      end
  end.

(** The outer loop [for ip, n := range ips], over the entries of [ips]. *)
Fixpoint add_bind (fuel : nat) (cnames : gmap string string)
    (entries : list (Endpoint * string)) (rm : gmap Endpoint string)
    : option (gmap Endpoint string) :=
  match entries with
  | [] => Some rm
  | (ip, n) :: rest =>
      match add_walk fuel cnames n [] with
      | Some names => add_bind fuel cnames rest (<[ip := Join names ","]> rm)
      | None => None
      end
  end.

(** [r.add(dns)]: the map after the call, or [None] when a walk needs
    more than [fuel] turns. *)
Definition add (fuel : nat) (dns : DNS) (r : gmap Endpoint string)
    : option (gmap Endpoint string) :=
  let '(cnames, ips) := add_scan (Answers dns) in
  add_bind fuel cnames (map_to_list ips) r.

(** *** packets.go: the buffer ring *)

(** A slice of [Metadata]: its elements and its capacity. *)
Record Buffer := { elems : list Metadata; cap : Z }.

(** [b[:0]]. *)
Definition truncate0 (b : Buffer) : Buffer := {| elems := []; cap := cap b |}.

(** [nextBuffer]: receive from the ring without blocking, else allocate.
    The ring is the queue of the channel, oldest first.  [None] is the
    panic of [make] on a negative capacity. *)
Definition nextBuffer (BufferSize : Z) (bufferRing : list Buffer)
    : option (Buffer * list Buffer) :=
  match bufferRing with
  | b :: ring' => Some (b, ring')
  | [] =>
      if BufferSize <? 0 then None
      else Some ({| elems := []; cap := BufferSize |}, [])
  end.

(** The [select] of [logBuffer], after [c.Log(b)] returned: send [b[:0]]
    unless the channel, of capacity [maxBuffers], is full. *)
Definition logBuffer_return (b : Buffer) (bufferRing : list Buffer) : list Buffer :=
  if (length bufferRing <? maxBuffers)%nat then bufferRing ++ [truncate0 b]
  else bufferRing.

(** *** packets.go: the worker *)

(** What [parser.DecodeLayers] and [packet.Metadata()] give for a frame:
    the decoded layer types in decoding order, and the layer values. *)
Record Frame := {
  decoded : list LayerType;
  ci_Timestamp : Z;
  ci_Length : Z;
  ip4 : IPHeader;
  ip6 : IPHeader;
  tcp : Ports;
  udp : Ports;
  dns : DNS
}.

Section worker.

Variable EndpointString : Endpoint -> string.

(** One turn of [for _, layerType := range decoded]. *)
Definition processor_layer (fuel : nat) (f : Frame)
    (st : Metadata * gmap Endpoint string) (layerType : LayerType)
    : option (Metadata * gmap Endpoint string) :=
  let '(b, rm) := st in
  match layerType with
  | LayerTypeIPv6 =>
      let '(s, d) := names EndpointString rm (NetworkFlow6 (ip6 f)) in
      Some ({| Timestamp := Timestamp b; Size := Size b;
               SrcName := s; DstName := d;
               SrcIP := hdr_SrcIP (ip6 f); DstIP := hdr_DstIP (ip6 f);
               SrcPort := SrcPort b; DstPort := DstPort b;
               V6 := true |}, rm)
  | LayerTypeIPv4 =>
      let '(s, d) := names EndpointString rm (NetworkFlow4 (ip4 f)) in
      Some ({| Timestamp := Timestamp b; Size := Size b;
               SrcName := s; DstName := d;
               SrcIP := hdr_SrcIP (ip4 f); DstIP := hdr_DstIP (ip4 f);
               SrcPort := SrcPort b; DstPort := DstPort b;
               V6 := V6 b |}, rm)
  | LayerTypeTCP =>
      Some ({| Timestamp := Timestamp b; Size := Size b;
               SrcName := SrcName b; DstName := DstName b;
               SrcIP := SrcIP b; DstIP := DstIP b;
               SrcPort := hdr_SrcPort (tcp f) mod 2 ^ 16;
               DstPort := hdr_DstPort (tcp f) mod 2 ^ 16;
               V6 := V6 b |}, rm)
  | LayerTypeUDP =>
      Some ({| Timestamp := Timestamp b; Size := Size b;
               SrcName := SrcName b; DstName := DstName b;
               SrcIP := SrcIP b; DstIP := DstIP b;
               SrcPort := hdr_SrcPort (udp f) mod 2 ^ 16;
               DstPort := hdr_DstPort (udp f) mod 2 ^ 16;
               V6 := V6 b |}, rm)
  | LayerTypeDNS =>
      match add fuel (dns f) rm with
      | Some rm' => Some (b, rm')
      | None => None
      end
  | _ => Some st
  end.

Fixpoint processor_layers (fuel : nat) (f : Frame) (ls : list LayerType)
    (st : Metadata * gmap Endpoint string)
    : option (Metadata * gmap Endpoint string) :=
  match ls with
  | [] => Some st
  | l :: ls' =>
      match processor_layer fuel f st l with
      | Some st' => processor_layers fuel f ls' st'
      | None => None
      end
  end.

(** The body of the worker's loop up to [c.Account(&b)]: the record
    built for the frame and the reverse-DNS map afterwards, when no other
    worker adds to the map while this one handles the frame. *)
Definition processor_frame (fuel : nat) (rm : gmap Endpoint string) (f : Frame)
    : option (Metadata * gmap Endpoint string) :=
  let b := {| Timestamp := ci_Timestamp f;
              Size := ci_Length f mod uint64_mod;
              SrcName := ""; DstName := "";
              SrcIP := []; DstIP := [];
              SrcPort := 0; DstPort := 0;
              V6 := false |} in
  processor_layers fuel f (decoded f) (b, rm).

End worker.

End packets.

Import packets.

(** ** Package [dashboard]: accounting.go *)

Module dashboard.

(** The package keeps its own copy of the local networks. *)
Definition stdLocalNets : list IPNet :=
  [ cidr [10; 0; 0; 0] 8;
    cidr [172; 16; 0; 0] 12;
    cidr [192; 168; 0; 0] 16;
    cidr (253 :: replicate 15 0) 8;
    cidr [169; 254; 0; 0] 16;
    cidr (254 :: 128 :: replicate 14 0) 10;
    cidr [0; 0; 0; 0] 32;
    cidr [255; 255; 255; 255] 32 ].

(** Two [uint64] counters. *)
Record Aggregation := { Bytes : Z; Packets : Z }.

(** [a.Add(bytes)]: two atomic additions. *)
Definition Add (a : Aggregation) (bytes : Z) : Aggregation :=
  {| Bytes := add64 (Bytes a) bytes; Packets := add64 (Packets a) 1 |}.

Record Values := {
  Now : Z;
  Up : Aggregation; Down : Aggregation;
  Internal : Aggregation; External : Aggregation;
  Total : Aggregation;
  V4 : Aggregation; V6 : Aggregation
}.

(** The zero value of the package variable [vals]. *)
Definition zero : Aggregation := {| Bytes := 0; Packets := 0 |}.
Definition vals0 : Values :=
  {| Now := 0; Up := zero; Down := zero; Internal := zero;
     External := zero; Total := zero; V4 := zero; V6 := zero |}.

Definition isLocal (LocalNetblock : option IPNet) (ip : IP) : bool :=
  if match LocalNetblock with
     | Some nb => Contains nb ip
     | None => false
     end
  then true
  else existsb (fun cidr => Contains cidr ip) stdLocalNets.

(** The [switch] of [AddPacket] that picks the subtotal. *)
Definition add_subtotal (srcPrivate dstPrivate : bool) (size : Z) (v : Values) : Values :=
  if srcPrivate && dstPrivate then
    {| Now := Now v; Up := Up v; Down := Down v;
       Internal := Add (Internal v) size; External := External v;
       Total := Total v; V4 := V4 v; V6 := V6 v |}
  else if srcPrivate then
    {| Now := Now v; Up := Add (Up v) size; Down := Down v;
       Internal := Internal v; External := External v;
       Total := Total v; V4 := V4 v; V6 := V6 v |}
  else if dstPrivate then
    {| Now := Now v; Up := Up v; Down := Add (Down v) size;
       Internal := Internal v; External := External v;
       Total := Total v; V4 := V4 v; V6 := V6 v |}
  else
    {| Now := Now v; Up := Up v; Down := Down v;
       Internal := Internal v; External := Add (External v) size;
       Total := Total v; V4 := V4 v; V6 := V6 v |}.

(** The address-family counters, left alone for intra-local traffic. *)
Definition add_family (srcPrivate dstPrivate v6 : bool) (size : Z) (v : Values) : Values :=
  if negb (srcPrivate && dstPrivate) then
    if v6 then
      {| Now := Now v; Up := Up v; Down := Down v;
         Internal := Internal v; External := External v;
         Total := Total v; V4 := V4 v; V6 := Add (V6 v) size |}
    else
      {| Now := Now v; Up := Up v; Down := Down v;
         Internal := Internal v; External := External v;
         Total := Total v; V4 := Add (V4 v) size; V6 := V6 v |}
  else v.

(** [AddPacket(m)] on the package variable [vals]. *)
Definition AddPacket (LocalNetblock : option IPNet) (vals : Values)
    (m : packets.Metadata) : Values :=
  let vals :=
    {| Now := Now vals; Up := Up vals; Down := Down vals;
       Internal := Internal vals; External := External vals;
       Total := Add (Total vals) (packets.Size m);
       V4 := V4 vals; V6 := V6 vals |} in
  let srcPrivate := isLocal LocalNetblock (packets.SrcIP m) in
  let dstPrivate := isLocal LocalNetblock (packets.DstIP m) in
  let vals := add_subtotal srcPrivate dstPrivate (packets.Size m) vals in
  add_family srcPrivate dstPrivate (packets.V6 m) (packets.Size m) vals.

(** A run of [AddPacket] calls.  The additions are atomic and commute, so
    the counters after a set of completed calls are those of the calls made
    one after the other, in any order. *)
Definition AddPackets (LocalNetblock : option IPNet) (vals : Values)
    (ms : list packets.Metadata) : Values :=
  foldl (AddPacket LocalNetblock) vals ms.

(** [State()]: stamp the time and copy the counters. *)
Definition State (now : Z) (vals : Values) : Values :=
  {| Now := now; Up := Up vals; Down := Down vals;
     Internal := Internal vals; External := External vals;
     Total := Total vals; V4 := V4 vals; V6 := V6 vals |}.

End dashboard.

(** ** Package [main]: the writer to InfluxDB *)

Module main.

Definition influxRetryLimit : nat := 5.

(** [time.Millisecond], in nanoseconds. *)
Definition Millisecond : Z := 1000000.

(** What one [http.Post] comes back with. *)
Inductive PostResult :=
| TransportError
| Response (status : string).

(** What [writePackets] does that can be seen from outside, in order. *)
Inductive Event :=
| LogWriting (points : nat)
| Post (body : list Metadata)
| LogError
| Wait (d : Z)
| LogStatus (status : string).

Section writer.

(** The outcome of the [i]-th call of [http.Post], and the value of the
    [i]-th call of [rand.Int63n] on its argument. *)
Variable post : nat -> PostResult.
Variable Int63n : nat -> Z -> Z.

(** The retry loop from turn [i] on, with [remaining] turns left. *)
Fixpoint writePackets_loop (remaining : nat) (i : nat) (waitBase : Z)
    (data : list Metadata) : list Event :=
  match remaining with
  | O => []
  | S remaining' =>
      Post data ::
      match post i with
      | TransportError =>
          LogError
          :: Wait (wrap_int64 (waitBase + Int63n i waitBase))
          :: writePackets_loop remaining' (S i) (wrap_int64 (waitBase * 2)) data
      | Response status => [LogStatus status]
      end
  end.

Definition writePackets (data : list Metadata) : list Event :=
  if (length data =? 0)%nat then []
  else LogWriting (length data)
       :: writePackets_loop influxRetryLimit 0 (wrap_int64 (100 * Millisecond)) data.

End writer.

End main.

(** * Properties *)

(** ** Counters *)

Section counters.

Import dashboard.

Lemma add64_range x y : 0 <= add64 x y < 2 ^ 64.
Proof. unfold add64, uint64_mod. apply Z.mod_pos_bound. lia. Qed.

Lemma add64_exact x y : 0 <= x + y < 2 ^ 64 -> add64 x y = x + y.
Proof. intros H. unfold add64, uint64_mod. apply Z.mod_small. lia. Qed.

Lemma add64_add_l x y s : add64 (add64 x s) y = add64 (add64 x y) s.
Proof.
  unfold add64. rewrite !Zplus_mod_idemp_l. f_equal. lia.
Qed.

Lemma add64_add_r x y s : add64 x (add64 y s) = add64 (add64 x y) s.
Proof.
  unfold add64. rewrite Zplus_mod_idemp_r, Zplus_mod_idemp_l. f_equal. lia.
Qed.

(** The sum of four, and of three, counters as Go computes it. *)
Definition sum4 (a b c d : Z) : Z := add64 (add64 (add64 a b) c) d.
Definition sum3 (a b c : Z) : Z := add64 (add64 a b) c.

(** The byte counters, then the packet counters, of a snapshot. *)
Definition flows_bytes (v : Values) : Z :=
  sum4 (Bytes (Up v)) (Bytes (Down v)) (Bytes (Internal v)) (Bytes (External v)).
Definition flows_packets (v : Values) : Z :=
  sum4 (Packets (Up v)) (Packets (Down v)) (Packets (Internal v)) (Packets (External v)).
Definition crossing_bytes (v : Values) : Z :=
  sum3 (Bytes (Up v)) (Bytes (Down v)) (Bytes (External v)).
Definition crossing_packets (v : Values) : Z :=
  sum3 (Packets (Up v)) (Packets (Down v)) (Packets (External v)).

Definition sizes (ms : list Metadata) : Z := foldr (fun m acc => Size m + acc) 0 ms.

Lemma sizes_app ms m : sizes (ms ++ [m]) = sizes ms + Size m.
Proof. induction ms as [|a ms IH]; simpl; lia. Qed.

Lemma AddPackets_snoc lb v ms m :
  AddPackets lb v (ms ++ [m]) = AddPacket lb (AddPackets lb v ms) m.
Proof. unfold AddPackets. apply foldl_snoc. Qed.

(** Every counter stays a [uint64]. *)
Definition in_range (a : Aggregation) : Prop :=
  0 <= Bytes a < 2 ^ 64 /\ 0 <= Packets a < 2 ^ 64.

Lemma Add_in_range a s : in_range (Add a s).
Proof. split; apply add64_range. Qed.

(** The totals agree with the subtotals, in [uint64] arithmetic. *)
Definition totals_agree (v : Values) : Prop :=
  Bytes (Total v) = flows_bytes v /\ Packets (Total v) = flows_packets v.

Definition families_agree (v : Values) : Prop :=
  add64 (Bytes (V4 v)) (Bytes (V6 v)) = crossing_bytes v
  /\ add64 (Packets (V4 v)) (Packets (V6 v)) = crossing_packets v.

Lemma sum4_bump1 a b c d s : sum4 (add64 a s) b c d = add64 (sum4 a b c d) s.
Proof.
  unfold sum4.
  rewrite (add64_add_l a b s), (add64_add_l _ c s), (add64_add_l _ d s).
  reflexivity.
Qed.
Lemma sum4_bump2 a b c d s : sum4 a (add64 b s) c d = add64 (sum4 a b c d) s.
Proof.
  unfold sum4.
  rewrite (add64_add_r a b s), (add64_add_l _ c s), (add64_add_l _ d s).
  reflexivity.
Qed.
Lemma sum4_bump3 a b c d s : sum4 a b (add64 c s) d = add64 (sum4 a b c d) s.
Proof.
  unfold sum4. rewrite (add64_add_r _ c s), (add64_add_l _ d s). reflexivity.
Qed.
Lemma sum4_bump4 a b c d s : sum4 a b c (add64 d s) = add64 (sum4 a b c d) s.
Proof. unfold sum4. apply add64_add_r. Qed.
Lemma sum3_bump1 a b c s : sum3 (add64 a s) b c = add64 (sum3 a b c) s.
Proof.
  unfold sum3. rewrite (add64_add_l a b s), (add64_add_l _ c s). reflexivity.
Qed.
Lemma sum3_bump2 a b c s : sum3 a (add64 b s) c = add64 (sum3 a b c) s.
Proof.
  unfold sum3. rewrite (add64_add_r a b s), (add64_add_l _ c s). reflexivity.
Qed.
Lemma sum3_bump3 a b c s : sum3 a b (add64 c s) = add64 (sum3 a b c) s.
Proof. unfold sum3. apply add64_add_r. Qed.

Lemma AddPacket_totals_agree lb v m :
  totals_agree v -> totals_agree (AddPacket lb v m).
Proof.
  unfold totals_agree, flows_bytes, flows_packets, AddPacket, add_subtotal, add_family.
  intros [Hb Hp].
  destruct (isLocal lb (SrcIP m)), (isLocal lb (DstIP m)), (packets.V6 m);
    simpl; rewrite Hb, Hp;
    auto using sum4_bump1, sum4_bump2, sum4_bump3, sum4_bump4, eq_sym.
Qed.

Lemma AddPacket_families_agree lb v m :
  families_agree v -> families_agree (AddPacket lb v m).
Proof.
  unfold families_agree, crossing_bytes, crossing_packets, AddPacket, add_subtotal, add_family.
  intros [Hb Hp].
  destruct (isLocal lb (SrcIP m)), (isLocal lb (DstIP m)), (packets.V6 m);
    simpl; rewrite ?sum3_bump1, ?sum3_bump2, ?sum3_bump3, <- ?Hb, <- ?Hp;
    auto using add64_add_l, add64_add_r.
Qed.

(** While no counter has wrapped, the counters are the plain sums. *)
Record plain_sums (ms : list Metadata) (v : Values) : Prop := {
  ps_total_bytes : Bytes (Total v) = sizes ms;
  ps_total_packets : Packets (Total v) = Z.of_nat (length ms);
  ps_flows_bytes :
    Bytes (Up v) + Bytes (Down v) + Bytes (Internal v) + Bytes (External v) = sizes ms;
  ps_flows_packets :
    Packets (Up v) + Packets (Down v) + Packets (Internal v) + Packets (External v)
    = Z.of_nat (length ms);
  ps_family_bytes :
    Bytes (V4 v) + Bytes (V6 v) = Bytes (Up v) + Bytes (Down v) + Bytes (External v);
  ps_family_packets :
    Packets (V4 v) + Packets (V6 v)
    = Packets (Up v) + Packets (Down v) + Packets (External v);
  ps_nonneg :
    Forall (fun a => 0 <= Bytes a /\ 0 <= Packets a)
      [Up v; Down v; Internal v; External v; V4 v; V6 v]
}.

(** No counter wraps on [ms]: its sizes are [uint64] values whose sum,
    like the number of packets, stays below [2^64]. *)
Definition no_wrap (ms : list Metadata) : Prop :=
  Forall (fun m => 0 <= Size m) ms
  /\ sizes ms < 2 ^ 64 /\ Z.of_nat (length ms) < 2 ^ 64.

Lemma no_wrap_snoc ms m :
  no_wrap (ms ++ [m]) -> no_wrap ms /\ 0 <= Size m /\ 0 <= sizes ms.
Proof.
  unfold no_wrap. rewrite Forall_app, Forall_singleton, sizes_app, length_app.
  simpl. intros [[Hms Hm] [Hs Hl]].
  assert (0 <= sizes ms) by (clear -Hms; induction Hms; simpl; lia).
  repeat split; auto; lia.
Qed.

Lemma plain_sums_vals0 : plain_sums [] vals0.
Proof. split; simpl; try reflexivity. repeat constructor; simpl; lia. Qed.

Lemma AddPacket_plain_sums lb ms m v :
  no_wrap (ms ++ [m]) -> plain_sums ms v -> plain_sums (ms ++ [m]) (AddPacket lb v m).
Proof.
  intros Hnw [Htb Htp Hfb Hfp Hvb Hvp Hnn].
  pose proof Hnw as (_ & Hs & Hl).
  apply no_wrap_snoc in Hnw as (_ & Hm & Hs0).
  rewrite sizes_app in Hs. rewrite length_app in Hl. simpl in Hl.
  repeat (apply Forall_cons in Hnn as [[? ?] Hnn]).
  unfold AddPacket, add_subtotal, add_family.
  destruct (isLocal lb (SrcIP m)), (isLocal lb (DstIP m)), (packets.V6 m);
    simpl; (split; simpl; rewrite ?sizes_app, ?length_app; simpl;
            [ .. | repeat constructor; simpl;
                   rewrite ?add64_exact by lia; lia ];
            rewrite ?add64_exact by lia; lia).
Qed.

Lemma AddPackets_plain_sums lb ms :
  no_wrap ms -> plain_sums ms (AddPackets lb vals0 ms).
Proof.
  induction ms as [|m ms IH] using rev_ind; intros Hnw.
  - apply plain_sums_vals0.
  - rewrite AddPackets_snoc. apply AddPacket_plain_sums; [assumption|].
    apply IH. apply no_wrap_snoc in Hnw. tauto.
Qed.

End counters.

(** ** Networks and addresses *)

Section networks.

(** The networks [net.ParseCIDR] can return: an IPv4 or IPv6 address
    with a prefix length within its size. *)
Definition parsed_cidr (n : IPNet) : Prop :=
  exists addr ones,
    (length addr = IPv4len \/ length addr = IPv6len)
    /\ 0 <= ones <= 8 * Z.of_nat (length addr)
    /\ n = cidr addr ones.

(** The package variable [LocalNetblock] after [main]: nil, or the
    network parsed from the flag. *)
Definition LocalNetblock_ok (lb : option IPNet) : Prop :=
  match lb with
  | None => True
  | Some n => parsed_cidr n
  end.

(** The zero network is not among them.  It has no network number, so
    [Contains] compares zero bytes and finds the nil address inside. *)
Example zero_net_contains_nil : Contains {| net_IP := []; net_Mask := [] |} [] = true.
Proof. reflexivity. Qed.

Lemma CIDRMask_loop_length l n : length (CIDRMask_loop l n) = l.
Proof.
  revert n. induction l as [|l IH]; intros n; simpl; [reflexivity|].
  destruct (8 <=? n); simpl; rewrite IH; reflexivity.
Qed.

Lemma CIDRMask_length ones L :
  (L = IPv4len \/ L = IPv6len) -> 0 <= ones <= 8 * Z.of_nat L ->
  length (CIDRMask ones (8 * L)) = L.
Proof.
  intros HL Hones. unfold CIDRMask.
  assert (Hbits : ((8 * L =? 8 * IPv4len) || (8 * L =? 8 * IPv6len))%nat = true).
  { destruct HL as [-> | ->]; reflexivity. }
  rewrite Hbits. simpl negb. cbv iota.
  assert (Hlo : (ones <? 0) = false) by (apply Z.ltb_ge; lia).
  assert (Hhi : (Z.of_nat (8 * L) <? ones) = false) by (apply Z.ltb_ge; lia).
  rewrite Hlo, Hhi. simpl orb. cbv iota.
  rewrite CIDRMask_loop_length.
  destruct HL as [-> | ->]; reflexivity.
Qed.

Lemma To4_length ip x : To4 ip = Some x -> length x = IPv4len.
Proof.
  unfold To4. destruct (length ip =? IPv4len)%nat eqn:H4.
  - intros [= <-]. apply Nat.eqb_eq in H4. exact H4.
  - destruct (length ip =? IPv6len)%nat eqn:H6; simpl; [|discriminate].
    destruct (_ && _ && _); [|discriminate].
    intros [= <-]. apply Nat.eqb_eq in H6. rewrite length_drop, H6. reflexivity.
Qed.

Lemma To4_nil : To4 [] = None.
Proof. reflexivity. Qed.

(** A parsed network always has a network number, of 4 or 16 bytes. *)
Lemma networkNumberAndMask_parsed n :
  parsed_cidr n ->
  exists nn m, networkNumberAndMask n = Some (nn, m)
               /\ (length nn = IPv4len \/ length nn = IPv6len).
Proof.
  intros (addr & ones & HL & Hones & ->).
  pose proof (CIDRMask_length ones (length addr) HL Hones) as Hm.
  unfold networkNumberAndMask, cidr. cbn [net_IP net_Mask].
  set (m := CIDRMask ones (8 * length addr)) in *.
  assert (Hip : length (mask_ip addr m) = length addr).
  { unfold mask_ip. rewrite length_zip_with. lia. }
  destruct (To4 (mask_ip addr m)) as [x|] eqn:H4.
  - apply To4_length in H4. rewrite Hm.
    assert (Hx : (length x =? IPv4len)%nat = true) by (apply Nat.eqb_eq; exact H4).
    rewrite Hx.
    destruct HL as [-> | ->]; simpl; eauto.
  - rewrite Hip, Hm.
    destruct HL as [HL | HL]; rewrite HL in *; simpl.
    + exfalso. unfold To4 in H4. rewrite Hip in H4. simpl in H4. discriminate.
    + rewrite Hip. simpl. eauto.
Qed.

(** No parsed network contains the nil address. *)
Lemma Contains_parsed_nil n : parsed_cidr n -> Contains n [] = false.
Proof.
  intros Hn. destruct (networkNumberAndMask_parsed n Hn) as (nn & m & Hnm & Hlen).
  unfold Contains. rewrite Hnm. cbn.
  destruct nn; [destruct Hlen; discriminate | reflexivity].
Qed.

Lemma isLocal_nil lb : LocalNetblock_ok lb -> dashboard.isLocal lb [] = false.
Proof.
  intros Hlb. unfold dashboard.isLocal.
  destruct lb as [n|]; [rewrite (Contains_parsed_nil n Hlb)|]; reflexivity.
Qed.

End networks.

(** ** Address ranges *)

Section ranges.

(** An address as a number: the big-endian value of its bytes. *)
Definition be_value (bs : list Z) : Z := foldl (fun acc b => acc * 256 + b) 0 bs.

(** What a [net.IP] denotes: an IPv4 address (4 bytes, or 16 bytes with
    the IPv4-in-IPv6 prefix), an IPv6 address, or, for nil and for any
    other length, no address. *)
Inductive Address :=
| AddrV4 (v : Z)
| AddrV6 (v : Z)
| NoAddress.

Definition address_of (ip : IP) : Address :=
  match To4 ip with
  | Some x => AddrV4 (be_value x)
  | None => if (length ip =? IPv6len)%nat then AddrV6 (be_value ip) else NoAddress
  end.

(** The range [base/plen] of a family: the addresses from [base] up to
    [base + 2^(width - plen) - 1]. *)
Record Range := { rg_v6 : bool; rg_base : Z; rg_plen : Z }.

Definition falls_within (a : Address) (r : Range) : Prop :=
  match a with
  | AddrV4 v => rg_v6 r = false /\ rg_base r <= v < rg_base r + 2 ^ (32 - rg_plen r)
  | AddrV6 v => rg_v6 r = true /\ rg_base r <= v < rg_base r + 2 ^ (128 - rg_plen r)
  | NoAddress => False
  end.

Definition v4 (a b c d : Z) (plen : Z) : Range :=
  {| rg_v6 := false; rg_base := be_value [a; b; c; d]; rg_plen := plen |}.

(** An IPv6 base given by its first two bytes, the rest being zero. *)
Definition v6 (a b : Z) (plen : Z) : Range :=
  {| rg_v6 := true; rg_base := be_value [a; b] * 2 ^ 112; rg_plen := plen |}.

(** The hard-wired ranges, as sets of addresses. *)
Definition hardwired : list Range :=
  [ v4 10 0 0 0 8; v4 172 16 0 0 12; v4 192 168 0 0 16; v4 169 254 0 0 16;
    v4 0 0 0 0 32; v4 255 255 255 255 32; v6 253 0 8; v6 254 128 10 ].

(** A property of bytes holds once checked on the 256 of them. *)
Lemma byte_check (f : Z -> bool) :
  forallb f (seqZ 0 256) = true -> forall b, is_byte b -> f b = true.
Proof.
  intros Hall b Hb.
  rewrite forallb_forall in Hall. apply Hall.
  apply list_elem_of_In, elem_of_seqZ. unfold is_byte in Hb. lia.
Qed.

Lemma land_255 b : is_byte b -> Z.land b 255 = b.
Proof.
  intros Hb. apply Z.eqb_eq.
  apply (byte_check (fun b => Z.land b 255 =? b)); [vm_compute; reflexivity | exact Hb].
Qed.

Lemma land_240 b : is_byte b -> (Z.land 16 240 =? Z.land b 240) = true <-> 16 <= b <= 31.
Proof.
  intros Hb.
  pose proof (byte_check
    (fun b => Bool.eqb (Z.land 16 240 =? Z.land b 240) ((16 <=? b) && (b <=? 31)))
    ltac:(vm_compute; reflexivity) b Hb) as H.
  apply Bool.eqb_prop in H. rewrite H, andb_true_iff, !Z.leb_le. reflexivity.
Qed.

Lemma land_192 b : is_byte b -> (Z.land 128 192 =? Z.land b 192) = true <-> 128 <= b <= 191.
Proof.
  intros Hb.
  pose proof (byte_check
    (fun b => Bool.eqb (Z.land 128 192 =? Z.land b 192) ((128 <=? b) && (b <=? 191)))
    ltac:(vm_compute; reflexivity) b Hb) as H.
  apply Bool.eqb_prop in H. rewrite H, andb_true_iff, !Z.leb_le. reflexivity.
Qed.

Lemma be_value_range bs : Forall is_byte bs -> 0 <= be_value bs < 256 ^ Z.of_nat (length bs).
Proof.
  unfold be_value. induction bs as [|b bs IH] using rev_ind; intros Hbs.
  - simpl. lia.
  - apply Forall_app in Hbs as [Hbs Hb]. rewrite Forall_singleton in Hb.
    rewrite foldl_snoc, length_app. simpl length.
    replace (Z.of_nat (length bs + 1)) with (Z.succ (Z.of_nat (length bs))) by lia.
    rewrite Z.pow_succ_r by lia. specialize (IH Hbs). unfold is_byte in Hb.
    revert IH. generalize (256 ^ Z.of_nat (length bs)).
    generalize (foldl (fun acc b0 : Z => acc * 256 + b0) 0 bs). intros v p IH.
    cbn beta. lia.
Qed.

(** The three shapes of an address slice. *)
Lemma address_cases ip :
  Forall is_byte ip ->
  (exists a b c d, canon ip = [a; b; c; d] /\ To4 ip = Some [a; b; c; d]
                   /\ Forall is_byte [a; b; c; d])
  \/ (To4 ip = None /\ canon ip = ip /\ length ip = IPv6len)
  \/ (To4 ip = None /\ canon ip = ip /\ length ip <> IPv4len /\ length ip <> IPv6len).
Proof.
  intros Hip. unfold canon. destruct (To4 ip) as [x|] eqn:H4.
  - left. pose proof (To4_length _ _ H4) as Hx.
    assert (Hxb : Forall is_byte x).
    { unfold To4 in H4. destruct (length ip =? IPv4len)%nat.
      - injection H4 as <-. exact Hip.
      - destruct (_ && _ && _ && _); [|discriminate].
        injection H4 as <-. apply Forall_drop. exact Hip. }
    destruct x as [|a [|b [|c [|d [|e x]]]]]; try discriminate.
    exists a, b, c, d. auto.
  - destruct (length ip =? IPv6len)%nat eqn:H6.
    + right; left. apply Nat.eqb_eq in H6. auto.
    + right; right. apply Nat.eqb_neq in H6.
      repeat split; auto. intros Hl. unfold To4 in H4.
      apply Nat.eqb_eq in Hl. rewrite Hl in H4. discriminate.
Qed.

Lemma be_value_app xs ys :
  be_value (xs ++ ys) = be_value xs * 256 ^ Z.of_nat (length ys) + be_value ys.
Proof.
  unfold be_value. induction ys as [|y ys IH] using rev_ind.
  - rewrite app_nil_r. simpl. lia.
  - rewrite app_assoc, !foldl_snoc, IH, length_app. simpl length.
    replace (Z.of_nat (length ys + 1)) with (Z.succ (Z.of_nat (length ys))) by lia.
    rewrite Z.pow_succ_r by lia. lia.
Qed.

Lemma masked_eq_zero_mask nn m ip :
  Forall (fun b => b = 0) m -> masked_eq nn m ip = true.
Proof.
  intros Hm. revert nn ip. induction Hm as [|b m -> Hm IH]; intros nn ip.
  - destruct nn, ip; reflexivity.
  - destruct nn as [|a nn], ip as [|c ip]; try reflexivity.
    simpl. rewrite !Z.land_0_r, IH. reflexivity.
Qed.

Lemma masked_eq_cons a nn b m c ip :
  masked_eq (a :: nn) (b :: m) (c :: ip)
  = (Z.land a b =? Z.land c b) && masked_eq nn m ip.
Proof. reflexivity. Qed.

(** [Contains] for a network of 4-byte, and of 16-byte, network number. *)
Lemma Contains_net4 n nn m ip :
  networkNumberAndMask n = Some (nn, m) -> length nn = IPv4len ->
  Contains n ip = match To4 ip with Some x => masked_eq nn m x | None => false end.
Proof.
  intros Hn Hl. unfold Contains, canon. rewrite Hn, Hl.
  destruct (To4 ip) as [x|] eqn:H4.
  - rewrite (To4_length _ _ H4). reflexivity.
  - destruct (length ip =? IPv4len)%nat eqn:E; [|reflexivity].
    unfold To4 in H4. rewrite E in H4. discriminate.
Qed.

Lemma Contains_net6 n nn m ip :
  networkNumberAndMask n = Some (nn, m) -> length nn = IPv6len ->
  Contains n ip = match To4 ip with
                  | Some x => false
                  | None => if (length ip =? IPv6len)%nat then masked_eq nn m ip else false
                  end.
Proof.
  intros Hn Hl. unfold Contains, canon. rewrite Hn, Hl.
  destruct (To4 ip) as [x|] eqn:H4; [|reflexivity].
  rewrite (To4_length _ _ H4). reflexivity.
Qed.

End ranges.

Section hardwired_ranges.

Variable ip : IP.
Hypothesis Hip : Forall is_byte ip.

(** An IPv4 network against the three shapes of [ip]. *)
Ltac net4 :=
  let a := fresh "a" in let b := fresh "b" in
  let c := fresh "c" in let d := fresh "d" in
  let H4 := fresh "H4" in let Hb := fresh "Hb" in
  let Hl := fresh "Hl" in
  erewrite Contains_net4 by (vm_compute; reflexivity);
  unfold address_of;
  destruct (address_cases ip Hip)
    as [(a & b & c & d & _ & H4 & Hb) | [(H4 & _ & Hl) | (H4 & _ & _ & Hl)]];
  rewrite H4;
  [ repeat (apply Forall_cons in Hb as [? Hb]);
    unfold is_byte in *; cbn [falls_within v4 rg_v6 rg_base rg_plen masked_eq]
  | rewrite Hl; cbn; split; [discriminate | intros [[=] _]]
  | apply Nat.eqb_neq in Hl; rewrite Hl; cbn; split; [discriminate | intros []] ].

(** Turn the byte comparisons left by [masked_eq] into arithmetic. *)
Ltac bytes_arith :=
  rewrite ?Z.land_0_r, ?land_255 by (unfold is_byte; lia);
  rewrite ?Z.eqb_refl; cbn [andb]; rewrite ?andb_true_r;
  rewrite ?andb_true_iff, ?land_240, ?land_192, ?Z.eqb_eq by (unfold is_byte; lia);
  unfold be_value; cbn [foldl];
  repeat match goal with
         | |- context [2 ^ ?e] => let v := eval vm_compute in (2 ^ e) in
                                  change (2 ^ e) with v
         end;
  intuition (try discriminate; try lia).

Lemma Contains_10 :
  Contains (cidr [10; 0; 0; 0] 8) ip = true <-> falls_within (address_of ip) (v4 10 0 0 0 8).
Proof. net4. bytes_arith. Qed.

Lemma Contains_172_16 :
  Contains (cidr [172; 16; 0; 0] 12) ip = true
  <-> falls_within (address_of ip) (v4 172 16 0 0 12).
Proof. net4. bytes_arith. Qed.

Lemma Contains_192_168 :
  Contains (cidr [192; 168; 0; 0] 16) ip = true
  <-> falls_within (address_of ip) (v4 192 168 0 0 16).
Proof. net4. bytes_arith. Qed.

Lemma Contains_169_254 :
  Contains (cidr [169; 254; 0; 0] 16) ip = true
  <-> falls_within (address_of ip) (v4 169 254 0 0 16).
Proof. net4. bytes_arith. Qed.

Lemma Contains_0 :
  Contains (cidr [0; 0; 0; 0] 32) ip = true <-> falls_within (address_of ip) (v4 0 0 0 0 32).
Proof. net4. bytes_arith. Qed.

Lemma Contains_255 :
  Contains (cidr [255; 255; 255; 255] 32) ip = true
  <-> falls_within (address_of ip) (v4 255 255 255 255 32).
Proof. net4. bytes_arith. Qed.

(** A 16-byte address splits into its first two bytes and the rest. *)
Lemma address6_split :
  length ip = IPv6len ->
  exists a b rest, ip = a :: b :: rest /\ is_byte a /\ is_byte b
    /\ be_value ip = (a * 256 + b) * 2 ^ 112 + be_value rest
    /\ 0 <= be_value rest < 2 ^ 112.
Proof.
  intros Hl. destruct ip as [|a [|b rest]]; try discriminate.
  pose proof Hip as Hb.
  apply Forall_cons in Hb as [Ha Hb]. apply Forall_cons in Hb as [Hb Hrest].
  injection Hl as Hl.
  pose proof (be_value_range rest Hrest) as Hr. rewrite Hl in Hr.
  exists a, b, rest.
  split; [reflexivity|]. split; [exact Ha|]. split; [exact Hb|].
  split; [|exact Hr].
  change (a :: b :: rest) with ([a; b] ++ rest). rewrite be_value_app, Hl.
  reflexivity.
Qed.

(** An IPv6 network whose mask covers only the first two bytes. *)
Ltac net6 :=
  let a := fresh "a" in let b := fresh "b" in let rest := fresh "rest" in
  let H4 := fresh "H4" in let Hl := fresh "Hl" in
  let Ha := fresh "Ha" in let Hb := fresh "Hb" in
  let Hv := fresh "Hv" in let Hr := fresh "Hr" in let E := fresh "E" in
  erewrite Contains_net6 by (vm_compute; reflexivity);
  unfold address_of;
  destruct (address_cases ip Hip)
    as [(? & ? & ? & ? & _ & H4 & _) | [(H4 & _ & Hl) | (H4 & _ & _ & Hl)]];
  rewrite H4;
  [ cbn; split; [discriminate | intros [[=] _]]
  | destruct (address6_split Hl) as (a & b & rest & E & Ha & Hb & Hv & Hr);
    rewrite Hl, Hv; rewrite E; clear E;
    cbn [Nat.eqb IPv6len falls_within v6 rg_v6 rg_base rg_plen];
    rewrite !masked_eq_cons;
    rewrite (masked_eq_zero_mask _ _ rest) by (repeat constructor);
    generalize dependent (be_value rest); intros; unfold is_byte in *
  | apply Nat.eqb_neq in Hl; rewrite Hl; cbn; split; [discriminate | intros []] ].

Lemma Contains_fd00 :
  Contains (cidr (253 :: replicate 15 0) 8) ip = true
  <-> falls_within (address_of ip) (v6 253 0 8).
Proof. net6. bytes_arith. Qed.

Lemma Contains_fe80 :
  Contains (cidr (254 :: 128 :: replicate 14 0) 10) ip = true
  <-> falls_within (address_of ip) (v6 254 128 10).
Proof. net6. bytes_arith. Qed.

End hardwired_ranges.

(** ** The local-address classifier *)

Lemma isLocal_IsLocal lb ip : dashboard.isLocal lb ip = IsLocal lb ip.
Proof. reflexivity. Qed.

Lemma stdLocalNets_hardwired ip :
  Forall is_byte ip ->
  existsb (fun cidr => Contains cidr ip) stdLocalNets = true
  <-> exists r, r ∈ hardwired /\ falls_within (address_of ip) r.
Proof.
  intros Hip. unfold stdLocalNets. cbn [existsb].
  rewrite !orb_true_iff.
  rewrite (Contains_10 ip Hip), (Contains_172_16 ip Hip), (Contains_192_168 ip Hip),
    (Contains_fd00 ip Hip), (Contains_169_254 ip Hip), (Contains_fe80 ip Hip),
    (Contains_0 ip Hip), (Contains_255 ip Hip).
  unfold hardwired. split.
  - intros H.
    repeat (destruct H as [H | H]; [eexists; split; [|exact H]; repeat constructor|]).
    discriminate.
  - intros (r & Hr & Hin).
    repeat (apply elem_of_cons in Hr as [-> | Hr]; [tauto|]).
    apply elem_of_nil in Hr. destruct Hr.
Qed.

(** C6. For every address [ip], [IsLocal(ip)] is true exactly when [ip]
    lies in one of the hard-wired ranges 10/8, 172.16/12, 192.168/16,
    169.254/16, 0.0.0.0/32, 255.255.255.255/32, fd00::/8, fe80::/10, taken
    as sets of addresses, or the operator-declared network is set and
    contains it; so it is false for every address outside all of them. *)
Theorem IsLocal_iff_ranges (LocalNetblock : option IPNet) (ip : IP) :
  Forall is_byte ip ->
  IsLocal LocalNetblock ip = true
  <-> (exists r, r ∈ hardwired /\ falls_within (address_of ip) r)
      \/ (exists nb, LocalNetblock = Some nb /\ Contains nb ip = true).
Proof.
  intros Hip. rewrite <- (stdLocalNets_hardwired ip Hip). unfold IsLocal.
  destruct LocalNetblock as [nb|].
  - destruct (Contains nb ip) eqn:Hnb.
    + split; [intros _; right; eauto | reflexivity].
    + split; [tauto|]. intros [H | (nb' & [= <-] & H)]; [exact H | congruence].
  - split; [tauto|]. intros [H | (nb' & [=] & _)]. exact H.
Qed.

Lemma IsLocal_iff_ranges_witness :
  IsLocal None [172; 20; 1; 9] = true
  <-> (exists r, r ∈ hardwired /\ falls_within (address_of [172; 20; 1; 9]) r)
      \/ (exists nb, None = Some nb /\ Contains nb [172; 20; 1; 9] = true).
Proof.
  apply IsLocal_iff_ranges. repeat constructor; unfold is_byte; lia.
Defined.

(** ** The aggregator *)

Section aggregator.

Import dashboard.

Variable LocalNetblock : option IPNet.

(** C4. After any finite run of [AddPacket] calls from the zero state,
    [Total.Bytes] equals [Up.Bytes + Down.Bytes + Internal.Bytes +
    External.Bytes], and likewise for the packet counters: always as the
    [uint64] sum the counters themselves use, and as the plain sum of
    integers as long as no counter has wrapped. *)
Theorem AddPackets_total_is_sum_of_flows (ms : list Metadata) :
  let v := AddPackets LocalNetblock vals0 ms in
  (Bytes (Total v)
     = sum4 (Bytes (Up v)) (Bytes (Down v)) (Bytes (Internal v)) (Bytes (External v))
   /\ Packets (Total v)
     = sum4 (Packets (Up v)) (Packets (Down v)) (Packets (Internal v)) (Packets (External v)))
  /\ (no_wrap ms ->
      Bytes (Total v)
        = Bytes (Up v) + Bytes (Down v) + Bytes (Internal v) + Bytes (External v)
      /\ Packets (Total v)
        = Packets (Up v) + Packets (Down v) + Packets (Internal v) + Packets (External v)).
Proof.
  cbv zeta. split.
  - induction ms as [|m ms' IH] using rev_ind.
    + split; reflexivity.
    + rewrite AddPackets_snoc. apply AddPacket_totals_agree, IH.
  - intros Hnw. destruct (AddPackets_plain_sums LocalNetblock ms Hnw).
    split; congruence.
Qed.

(** C5. After any finite run of [AddPacket] calls from the zero state,
    [V4.Bytes + V6.Bytes] equals [Up.Bytes + Down.Bytes + External.Bytes],
    and likewise for packets (as [uint64] sums always, as plain sums while
    no counter has wrapped); a call changes the family counters exactly
    when source and destination are not both local. *)
Theorem AddPackets_families_exclude_internal (ms : list Metadata) :
  let v := AddPackets LocalNetblock vals0 ms in
  (add64 (Bytes (V4 v)) (Bytes (V6 v))
     = sum3 (Bytes (Up v)) (Bytes (Down v)) (Bytes (External v))
   /\ add64 (Packets (V4 v)) (Packets (V6 v))
     = sum3 (Packets (Up v)) (Packets (Down v)) (Packets (External v)))
  /\ (no_wrap ms ->
      Bytes (V4 v) + Bytes (V6 v) = Bytes (Up v) + Bytes (Down v) + Bytes (External v)
      /\ Packets (V4 v) + Packets (V6 v)
         = Packets (Up v) + Packets (Down v) + Packets (External v))
  /\ (forall (w : Values) (m : Metadata),
        let w' := AddPacket LocalNetblock w m in
        if isLocal LocalNetblock (SrcIP m) && isLocal LocalNetblock (DstIP m)
        then V4 w' = V4 w /\ V6 w' = V6 w
        else if packets.V6 m
             then V4 w' = V4 w /\ V6 w' = Add (V6 w) (Size m)
             else V4 w' = Add (V4 w) (Size m) /\ V6 w' = V6 w).
Proof.
  cbv zeta. split; [|split].
  - induction ms as [|m ms' IH] using rev_ind.
    + split; reflexivity.
    + rewrite AddPackets_snoc. apply AddPacket_families_agree, IH.
  - intros Hnw. destruct (AddPackets_plain_sums LocalNetblock ms Hnw).
    split; assumption.
  - intros w m. unfold AddPacket, add_subtotal, add_family.
    destruct (isLocal LocalNetblock (SrcIP m)), (isLocal LocalNetblock (DstIP m)),
      (packets.V6 m); simpl; split; reflexivity.
Qed.

(** C10. A record whose source and destination addresses are both
    absent is still counted: [isLocal] of the nil address is false, so
    [Total] and [External] grow by [(Size, 1)], [V4] does too when the
    [V6] flag is false, and [Up], [Down], [Internal] and [V6] stay. *)
Theorem AddPacket_absent_addresses (vals : Values) (m : Metadata) :
  LocalNetblock_ok LocalNetblock ->
  SrcIP m = [] -> DstIP m = [] ->
  let vals' := AddPacket LocalNetblock vals m in
  isLocal LocalNetblock [] = false
  /\ Total vals' = Add (Total vals) (Size m)
  /\ External vals' = Add (External vals) (Size m)
  /\ Up vals' = Up vals /\ Down vals' = Down vals /\ Internal vals' = Internal vals
  /\ (packets.V6 m = false -> V4 vals' = Add (V4 vals) (Size m) /\ V6 vals' = V6 vals)
  /\ (packets.V6 m = true -> V4 vals' = V4 vals /\ V6 vals' = Add (V6 vals) (Size m)).
Proof.
  intros Hlb Hsrc Hdst. cbv zeta.
  pose proof (isLocal_nil LocalNetblock Hlb) as Hnil.
  unfold AddPacket, add_subtotal, add_family. rewrite Hsrc, Hdst, Hnil.
  destruct (packets.V6 m); simpl; repeat split; try reflexivity; discriminate.
Qed.

End aggregator.

(** The three flows of the scenarios: private to public over IPv4, public
    to private over IPv6, and private to private. *)
Definition scenario_flows : list Metadata :=
  [ {| Timestamp := 0; Size := 80; SrcName := "10.0.0.5"; DstName := "8.8.8.8";
       SrcIP := [10; 0; 0; 5]; DstIP := [8; 8; 8; 8];
       SrcPort := 1234; DstPort := 53; V6 := false |};
    {| Timestamp := 1; Size := 1400; SrcName := "2001:db8::1"; DstName := "fd00::2";
       SrcIP := [32; 1; 13; 184; 0; 0; 0; 0; 0; 0; 0; 0; 0; 0; 0; 1];
       DstIP := [253; 0; 0; 0; 0; 0; 0; 0; 0; 0; 0; 0; 0; 0; 0; 2];
       SrcPort := 443; DstPort := 51820; V6 := true |};
    {| Timestamp := 2; Size := 64; SrcName := "192.168.1.2"; DstName := "192.168.1.3";
       SrcIP := [192; 168; 1; 2]; DstIP := [192; 168; 1; 3];
       SrcPort := 0; DstPort := 0; V6 := false |} ].

Lemma scenario_flows_no_wrap : no_wrap scenario_flows.
Proof.
  unfold no_wrap. split; [|split].
  - repeat constructor; simpl; lia.
  - vm_compute. reflexivity.
  - vm_compute. reflexivity.
Qed.

Example scenario_counters :
  dashboard.AddPackets None dashboard.vals0 scenario_flows
  = {| dashboard.Now := 0;
       dashboard.Up := {| dashboard.Bytes := 80; dashboard.Packets := 1 |};
       dashboard.Down := {| dashboard.Bytes := 1400; dashboard.Packets := 1 |};
       dashboard.Internal := {| dashboard.Bytes := 64; dashboard.Packets := 1 |};
       dashboard.External := dashboard.zero;
       dashboard.Total := {| dashboard.Bytes := 1544; dashboard.Packets := 3 |};
       dashboard.V4 := {| dashboard.Bytes := 80; dashboard.Packets := 1 |};
       dashboard.V6 := {| dashboard.Bytes := 1400; dashboard.Packets := 1 |} |}.
Proof. vm_compute. reflexivity. Qed.

Lemma AddPackets_total_is_sum_of_flows_witness :
  let v := dashboard.AddPackets None dashboard.vals0 scenario_flows in
  no_wrap scenario_flows
  /\ dashboard.Bytes (dashboard.Total v)
     = dashboard.Bytes (dashboard.Up v) + dashboard.Bytes (dashboard.Down v)
       + dashboard.Bytes (dashboard.Internal v) + dashboard.Bytes (dashboard.External v).
Proof.
  split; [exact scenario_flows_no_wrap|].
  apply (AddPackets_total_is_sum_of_flows None scenario_flows), scenario_flows_no_wrap.
Defined.

Lemma AddPackets_families_exclude_internal_witness :
  let v := dashboard.AddPackets None dashboard.vals0 scenario_flows in
  no_wrap scenario_flows
  /\ dashboard.Bytes (dashboard.V4 v) + dashboard.Bytes (dashboard.V6 v)
     = dashboard.Bytes (dashboard.Up v) + dashboard.Bytes (dashboard.Down v)
       + dashboard.Bytes (dashboard.External v).
Proof.
  split; [exact scenario_flows_no_wrap|].
  apply (AddPackets_families_exclude_internal None scenario_flows), scenario_flows_no_wrap.
Defined.

(** A record built from a frame in which no IP layer decoded. *)
Definition no_ip_record : Metadata :=
  {| Timestamp := 0; Size := 60; SrcName := ""; DstName := "";
     SrcIP := []; DstIP := []; SrcPort := 0; DstPort := 0; V6 := false |}.

Lemma AddPacket_absent_addresses_witness :
  let vals' := dashboard.AddPacket None dashboard.vals0 no_ip_record in
  dashboard.External vals' = {| dashboard.Bytes := 60; dashboard.Packets := 1 |}
  /\ dashboard.V4 vals' = {| dashboard.Bytes := 60; dashboard.Packets := 1 |}.
Proof.
  pose proof (AddPacket_absent_addresses None dashboard.vals0 no_ip_record
                I eq_refl eq_refl) as (_ & _ & HE & _ & _ & _ & H4 & _).
  split; [exact HE | exact (proj1 (H4 eq_refl))].
Defined.

(** ** The reverse-DNS map *)

Section reverse_dns.

Lemma in_snoc_l {A} (x y : A) l : x ∈ l -> x ∈ l ++ [y].
Proof. intros H. apply elem_of_app. left. exact H. Qed.

Lemma in_snoc_r {A} (y : A) l : y ∈ l ++ [y].
Proof. apply elem_of_app. right. apply list_elem_of_singleton. reflexivity. Qed.

(** The records the first loop of [add] keeps. *)
Definition is_addr_rr (a : DNSResourceRecord) : bool :=
  (rr_Class a =? DNSClassIN)
  && ((rr_Type a =? DNSTypeA) || (rr_Type a =? DNSTypeAAAA)).

Definition is_cname_rr (a : DNSResourceRecord) : bool :=
  (rr_Class a =? DNSClassIN) && (rr_Type a =? DNSTypeCNAME).

(** The two buckets after the first loop. *)
Definition scan_cnames (answers : list DNSResourceRecord) : gmap string string :=
  (add_scan answers).1.
Definition scan_ips (answers : list DNSResourceRecord) : gmap Endpoint string :=
  (add_scan answers).2.

Lemma add_scan_step_cases acc a :
  add_scan_step acc a =
    if is_addr_rr a then (acc.1, <[NewIPEndpoint (rr_IP a) := rr_Name a]> acc.2)
    else if is_cname_rr a then (<[rr_CNAME a := rr_Name a]> acc.1, acc.2)
    else acc.
Proof.
  destruct acc as [cn ips]. unfold add_scan_step, is_addr_rr, is_cname_rr.
  destruct (rr_Class a =? DNSClassIN); simpl; [|reflexivity].
  destruct ((rr_Type a =? DNSTypeA) || (rr_Type a =? DNSTypeAAAA)); reflexivity.
Qed.

Lemma is_addr_not_cname a : is_addr_rr a = true -> is_cname_rr a = false.
Proof.
  unfold is_addr_rr, is_cname_rr, DNSTypeA, DNSTypeAAAA, DNSTypeCNAME.
  destruct (rr_Class a =? DNSClassIN); simpl; [|reflexivity].
  rewrite orb_true_iff, !Z.eqb_eq. intros H. apply Z.eqb_neq. lia.
Qed.

Lemma add_scan_snoc answers a :
  add_scan (answers ++ [a]) = add_scan_step (add_scan answers) a.
Proof. unfold add_scan. apply foldl_snoc. Qed.

Lemma scan_ips_snoc answers a :
  scan_ips (answers ++ [a]) =
    if is_addr_rr a then <[NewIPEndpoint (rr_IP a) := rr_Name a]> (scan_ips answers)
    else scan_ips answers.
Proof.
  unfold scan_ips. rewrite add_scan_snoc, add_scan_step_cases.
  destruct (is_addr_rr a); [reflexivity|]. destruct (is_cname_rr a); reflexivity.
Qed.

Lemma scan_cnames_snoc answers a :
  scan_cnames (answers ++ [a]) =
    if is_cname_rr a then <[rr_CNAME a := rr_Name a]> (scan_cnames answers)
    else scan_cnames answers.
Proof.
  unfold scan_cnames. rewrite add_scan_snoc, add_scan_step_cases.
  destruct (is_addr_rr a) eqn:Ha.
  - rewrite (is_addr_not_cname a Ha). reflexivity.
  - destruct (is_cname_rr a); reflexivity.
Qed.

(** The address bucket binds an endpoint to the name of the last address
    record for it, and to nothing when there is none. *)
Lemma scan_ips_last pre a post :
  is_addr_rr a = true ->
  (forall a', a' ∈ post -> is_addr_rr a' = true ->
              NewIPEndpoint (rr_IP a') <> NewIPEndpoint (rr_IP a)) ->
  scan_ips (pre ++ a :: post) !! NewIPEndpoint (rr_IP a) = Some (rr_Name a).
Proof.
  intros Ha. induction post as [|x post IH] using rev_ind; intros Hpost.
  - rewrite scan_ips_snoc, Ha.
    apply lookup_insert_eq.
  - change (pre ++ a :: post ++ [x]) with (pre ++ (a :: post) ++ [x]).
    rewrite app_assoc, scan_ips_snoc.
    assert (IH' : scan_ips (pre ++ a :: post) !! NewIPEndpoint (rr_IP a)
                  = Some (rr_Name a)).
    { apply IH. intros a' Hin. apply Hpost, in_snoc_l, Hin. }
    destruct (is_addr_rr x) eqn:Hx; [|exact IH'].
    rewrite lookup_insert_ne; [exact IH'|]. apply Hpost; [apply in_snoc_r | exact Hx].
Qed.

Lemma scan_ips_none answers e :
  (forall a, a ∈ answers -> is_addr_rr a = true -> NewIPEndpoint (rr_IP a) <> e) ->
  scan_ips answers !! e = None.
Proof.
  induction answers as [|x answers IH] using rev_ind; intros H.
  - reflexivity.
  - rewrite scan_ips_snoc.
    assert (IH' : scan_ips answers !! e = None).
    { apply IH. intros a Hin. apply H, in_snoc_l, Hin. }
    destruct (is_addr_rr x) eqn:Hx; [|exact IH'].
    rewrite lookup_insert_ne; [exact IH'|]. apply H; [apply in_snoc_r | exact Hx].
Qed.

(** Every binding of the alias bucket comes from a CNAME record. *)
Lemma scan_cnames_Some answers k v :
  scan_cnames answers !! k = Some v ->
  exists a, a ∈ answers /\ is_cname_rr a = true /\ rr_CNAME a = k /\ rr_Name a = v.
Proof.
  induction answers as [|x answers IH] using rev_ind.
  - intros H. discriminate H.
  - rewrite scan_cnames_snoc. destruct (is_cname_rr x) eqn:Hx.
    + rewrite lookup_insert. case_decide as Hk.
      * intros [= <-]. exists x. split; [apply in_snoc_r | auto].
      * intros H. destruct (IH H) as (a & Hin & Ha). exists a. split; [apply in_snoc_l, Hin | exact Ha].
    + intros H. destruct (IH H) as (a & Hin & Ha). exists a. split; [apply in_snoc_l, Hin | exact Ha].
Qed.

Lemma scan_cnames_last pre a post :
  is_cname_rr a = true ->
  (forall a', a' ∈ post -> is_cname_rr a' = true -> rr_CNAME a' <> rr_CNAME a) ->
  scan_cnames (pre ++ a :: post) !! rr_CNAME a = Some (rr_Name a).
Proof.
  intros Ha. induction post as [|x post IH] using rev_ind; intros Hpost.
  - rewrite scan_cnames_snoc, Ha. apply lookup_insert_eq.
  - change (pre ++ a :: post ++ [x]) with (pre ++ (a :: post) ++ [x]).
    rewrite app_assoc, scan_cnames_snoc.
    assert (IH' : scan_cnames (pre ++ a :: post) !! rr_CNAME a = Some (rr_Name a)).
    { apply IH. intros a' Hin. apply Hpost, in_snoc_l, Hin. }
    destruct (is_cname_rr x) eqn:Hx; [|exact IH'].
    rewrite lookup_insert_ne; [exact IH'|]. apply Hpost; [apply in_snoc_r | exact Hx].
Qed.

End reverse_dns.

Section alias_walk.

Variable cnames : gmap string string.

Lemma add_walk_mono fuel fuel' n names res :
  add_walk fuel cnames n names = Some res -> (fuel <= fuel')%nat ->
  add_walk fuel' cnames n names = Some res.
Proof.
  revert fuel' n names. induction fuel as [|fuel IH]; intros fuel' n names H Hle.
  - discriminate H.
  - destruct fuel' as [|fuel']; [lia|]. simpl in *.
    destruct (cnames !! n) as [n'|]; [|exact H].
    apply IH; [exact H | lia].
Qed.

(** A name nothing is an alias of ends the walk at once. *)
Lemma add_walk_unaliased fuel n names :
  cnames !! n = None -> add_walk (S fuel) cnames n names = Some (names ++ [n]).
Proof. intros H. simpl. rewrite H. reflexivity. Qed.

(** The alias bucket has no cycle: some rank decreases along it. *)
Definition acyclic : Prop :=
  exists rk : string -> nat, forall k v, cnames !! k = Some v -> (rk v < rk k)%nat.

Lemma add_walk_ranked (rk : string -> nat) :
  (forall k v, cnames !! k = Some v -> (rk v < rk k)%nat) ->
  forall fuel n names, (rk n < fuel)%nat -> is_Some (add_walk fuel cnames n names).
Proof.
  intros Hrk. induction fuel as [|fuel IH]; intros n names Hn; [lia|].
  simpl. destruct (cnames !! n) as [n'|] eqn:E; [|eauto].
  apply IH. specialize (Hrk _ _ E). lia.
Qed.

(** A walk that enters a set of names closed under the bucket never
    leaves the loop. *)
Lemma add_walk_trapped (inside : string -> Prop) :
  (forall k, inside k -> exists v, cnames !! k = Some v /\ inside v) ->
  forall fuel n names, inside n -> add_walk fuel cnames n names = None.
Proof.
  intros Hclosed. induction fuel as [|fuel IH]; intros n names Hn; [reflexivity|].
  simpl. destruct (Hclosed n Hn) as (v & -> & Hv). apply IH, Hv.
Qed.

Lemma add_bind_None fuel entries rm e n :
  (e, n) ∈ entries -> add_walk fuel cnames n [] = None ->
  add_bind fuel cnames entries rm = None.
Proof.
  intros Hin Hw. revert rm. induction entries as [|[e0 n0] rest IH]; intros rm.
  - apply elem_of_nil in Hin. destruct Hin.
  - simpl. apply elem_of_cons in Hin as [[= <- <-] | Hin].
    + rewrite Hw. reflexivity.
    + destruct (add_walk fuel cnames n0 []); [apply IH, Hin | reflexivity].
Qed.

Lemma add_bind_Some fuel entries rm :
  (forall e n, (e, n) ∈ entries -> is_Some (add_walk fuel cnames n [])) ->
  is_Some (add_bind fuel cnames entries rm).
Proof.
  revert rm. induction entries as [|[e0 n0] rest IH]; intros rm H; simpl; [eauto|].
  destruct (H e0 n0) as [names ->]; [left|].
  apply IH. intros e n Hin. apply (H e n). right. exact Hin.
Qed.

Lemma add_bind_lookup_other fuel entries rm rm' e :
  add_bind fuel cnames entries rm = Some rm' -> e ∉ entries.*1 -> rm' !! e = rm !! e.
Proof.
  revert rm. induction entries as [|[e0 n0] rest IH]; intros rm H Hnotin; simpl in *.
  - injection H as <-. reflexivity.
  - destruct (add_walk fuel cnames n0 []) as [names|]; [|discriminate].
    apply not_elem_of_cons in Hnotin as [Hne Hnotin].
    rewrite (IH _ H Hnotin). apply lookup_insert_ne. congruence.
Qed.

Lemma add_bind_lookup fuel entries rm rm' e n :
  NoDup entries.*1 ->
  add_bind fuel cnames entries rm = Some rm' -> (e, n) ∈ entries ->
  exists names, add_walk fuel cnames n [] = Some names
                /\ rm' !! e = Some (Join names ",").
Proof.
  revert rm. induction entries as [|[e0 n0] rest IH]; intros rm Hnd H Hin.
  - apply elem_of_nil in Hin. destruct Hin.
  - simpl in *. apply NoDup_cons in Hnd as [Hfresh Hnd].
    destruct (add_walk fuel cnames n0 []) as [names|] eqn:Hw; [|discriminate].
    apply elem_of_cons in Hin as [[= -> ->] | Hin].
    + exists names. split; [exact Hw|].
      rewrite (add_bind_lookup_other _ _ _ _ _ H Hfresh). apply lookup_insert_eq.
    + apply (IH _ Hnd H Hin).
Qed.

End alias_walk.

Section add_facts.

Lemma add_unfold fuel dns r :
  add fuel dns r
  = add_bind fuel (scan_cnames (Answers dns)) (map_to_list (scan_ips (Answers dns))) r.
Proof.
  unfold add, scan_cnames, scan_ips. destruct (add_scan (Answers dns)). reflexivity.
Qed.

(** [add] returns once every walk it starts ends within the fuel. *)
Lemma add_returns fuel dns r :
  (forall e n, scan_ips (Answers dns) !! e = Some n ->
               is_Some (add_walk fuel (scan_cnames (Answers dns)) n [])) ->
  is_Some (add fuel dns r).
Proof.
  intros H. rewrite add_unfold. apply add_bind_Some.
  intros e n Hin. apply (H e). apply elem_of_map_to_list. exact Hin.
Qed.

Lemma add_diverges fuel dns r e n :
  scan_ips (Answers dns) !! e = Some n ->
  add_walk fuel (scan_cnames (Answers dns)) n [] = None ->
  add fuel dns r = None.
Proof.
  intros He Hw. rewrite add_unfold. apply (add_bind_None _ _ _ _ e n); [|exact Hw].
  apply elem_of_map_to_list. exact He.
Qed.

Lemma add_lookup fuel dns r r' e n :
  add fuel dns r = Some r' -> scan_ips (Answers dns) !! e = Some n ->
  exists names, add_walk fuel (scan_cnames (Answers dns)) n [] = Some names
                /\ r' !! e = Some (Join names ",").
Proof.
  rewrite add_unfold. intros H He.
  apply (add_bind_lookup _ _ _ _ _ _ _ (NoDup_fst_map_to_list _) H).
  apply elem_of_map_to_list. exact He.
Qed.

Lemma add_lookup_other fuel dns r r' e :
  add fuel dns r = Some r' -> scan_ips (Answers dns) !! e = None -> r' !! e = r !! e.
Proof.
  rewrite add_unfold. intros H He. apply (add_bind_lookup_other _ _ _ _ _ _ H).
  intros Hin. apply list_elem_of_fmap in Hin as ([e' n] & -> & Hin).
  apply elem_of_map_to_list in Hin. simpl in He. congruence.
Qed.

Lemma add_mono fuel fuel' dns r r' :
  add fuel dns r = Some r' -> (fuel <= fuel')%nat -> add fuel' dns r = Some r'.
Proof.
  rewrite !add_unfold. generalize (map_to_list (scan_ips (Answers dns))).
  intros entries. revert r. induction entries as [|[e n] rest IH]; intros r H Hle.
  - exact H.
  - simpl in *. destruct (add_walk fuel _ n []) as [names|] eqn:Hw; [|discriminate].
    rewrite (add_walk_mono _ _ _ _ _ _ Hw Hle). apply IH; assumption.
Qed.

End add_facts.

(** ** Learning from DNS answers *)

Definition rr_A (name : string) (ip : IP) : DNSResourceRecord :=
  {| rr_Name := name; rr_Type := DNSTypeA; rr_Class := DNSClassIN;
     rr_IP := ip; rr_CNAME := "" |}.

Definition rr_CNAME_of (name target : string) : DNSResourceRecord :=
  {| rr_Name := name; rr_Type := DNSTypeCNAME; rr_Class := DNSClassIN;
     rr_IP := []; rr_CNAME := target |}.

(** An answer whose two CNAME records alias each other. *)
Definition cname_loop_answer : DNS :=
  {| Answers := [ rr_A "a.example" [192; 0; 2; 1];
                  rr_CNAME_of "b.example" "a.example";
                  rr_CNAME_of "a.example" "b.example" ] |}.

(** C2. [add] does not return on an answer whose CNAME records form a
    cycle: on [cname_loop_answer] the alias walk is still running after any
    number of turns, whatever the map held before. *)
Theorem add_cname_loop_never_returns :
  forall (fuel : nat) (r : gmap Endpoint string), add fuel cname_loop_answer r = None.
Proof.
  intros fuel r.
  apply (add_diverges fuel cname_loop_answer r (NewIPEndpoint [192; 0; 2; 1]) "a.example").
  - apply (scan_ips_last [] (rr_A "a.example" [192; 0; 2; 1])); [reflexivity|].
    intros a' Hin Ha'. exfalso.
    apply elem_of_cons in Hin as [-> | Hin]; [discriminate Ha'|].
    apply elem_of_cons in Hin as [-> | Hin]; [discriminate Ha'|].
    apply elem_of_nil in Hin. exact Hin.
  - apply (add_walk_trapped _ (fun k => k = "a.example" \/ k = "b.example")); [|left; reflexivity].
    intros k [-> | ->].
    + exists "b.example". split; [|right; reflexivity].
      apply (scan_cnames_last [rr_A "a.example" [192; 0; 2; 1]]
               (rr_CNAME_of "b.example" "a.example")); [reflexivity|].
      intros a' Hin _. apply elem_of_cons in Hin as [-> | Hin]; [discriminate|].
      apply elem_of_nil in Hin. destruct Hin.
    + exists "a.example". split; [|left; reflexivity].
      apply (scan_cnames_last
               [rr_A "a.example" [192; 0; 2; 1]; rr_CNAME_of "b.example" "a.example"]
               (rr_CNAME_of "a.example" "b.example") []); [reflexivity|].
      intros a' Hin. apply elem_of_nil in Hin. destruct Hin.
Qed.

Section learning.

Variable EndpointString : Endpoint -> string.

Lemma scan_cnames_absent answers k :
  (forall c, c ∈ answers -> is_cname_rr c = true -> rr_CNAME c <> k) ->
  scan_cnames answers !! k = None.
Proof.
  intros H. destruct (scan_cnames answers !! k) as [v|] eqn:E; [|reflexivity].
  apply scan_cnames_Some in E as (c & Hin & Hc & Hk & _).
  destruct (H c Hin Hc Hk).
Qed.

Lemma scan_cnames_functional answers k v :
  (exists c, c ∈ answers /\ is_cname_rr c = true /\ rr_CNAME c = k /\ rr_Name c = v) ->
  (forall c, c ∈ answers -> is_cname_rr c = true -> rr_CNAME c = k -> rr_Name c = v) ->
  scan_cnames answers !! k = Some v.
Proof.
  induction answers as [|x answers IH] using rev_ind; intros (c & Hin & Hc & Hk & Hv) Hfun.
  - apply elem_of_nil in Hin. destruct Hin.
  - assert (Hfun' : forall c, c ∈ answers -> is_cname_rr c = true ->
                              rr_CNAME c = k -> rr_Name c = v).
    { intros c' Hin'. apply Hfun, in_snoc_l, Hin'. }
    rewrite scan_cnames_snoc.
    apply elem_of_app in Hin as [Hin | Hin].
    + assert (IH' : scan_cnames answers !! k = Some v) by (apply IH; eauto).
      destruct (is_cname_rr x) eqn:Hx; [|exact IH'].
      rewrite lookup_insert. case_decide as Hxk; [|exact IH'].
      f_equal. apply Hfun; [apply in_snoc_r | exact Hx | exact Hxk].
    + apply list_elem_of_singleton in Hin as ->.
      rewrite Hc, Hk, Hv. apply lookup_insert_eq.
Qed.

(** Without a cycle among the aliases, [add] returns, given fuel enough
    for the longest walk. *)
Lemma add_returns_acyclic dns r :
  acyclic (scan_cnames (Answers dns)) ->
  exists fuel0, forall fuel, (fuel0 <= fuel)%nat -> is_Some (add fuel dns r).
Proof.
  intros [rk Hrk].
  exists (S (max_list (rk <$> (map_to_list (scan_ips (Answers dns))).*2))).
  intros fuel Hfuel. apply add_returns. intros e n He.
  apply (add_walk_ranked _ rk Hrk).
  assert (Hle : (rk n <= max_list (rk <$> (map_to_list (scan_ips (Answers dns))).*2))%nat).
  { apply max_list_elem_of_le, list_elem_of_fmap. exists n. split; [reflexivity|].
    apply list_elem_of_fmap. exists (e, n). split; [reflexivity|].
    apply elem_of_map_to_list. exact He. }
  lia.
Qed.

(** C3. When an answer binds address [I] to the terminal name [T] by an IN
    address record and its IN CNAME records form the chain from [T] over
    [M1] to [M2], then after [add] the name of the endpoint of [I] is
    ["T,M1,M2"]: the terminal name, then each alias in turn, joined by
    commas. *)
Theorem add_cname_chain (r : gmap Endpoint string) (dns : DNS)
    (pre post : list DNSResourceRecord) (a : DNSResourceRecord) (T M1 M2 : string) :
  Answers dns = pre ++ a :: post ->
  is_addr_rr a = true -> rr_Name a = T ->
  (forall a', a' ∈ post -> is_addr_rr a' = true ->
              NewIPEndpoint (rr_IP a') <> NewIPEndpoint (rr_IP a)) ->
  (exists c, c ∈ Answers dns /\ is_cname_rr c = true /\ rr_CNAME c = T /\ rr_Name c = M1) ->
  (exists c, c ∈ Answers dns /\ is_cname_rr c = true /\ rr_CNAME c = M1 /\ rr_Name c = M2) ->
  (forall c, c ∈ Answers dns -> is_cname_rr c = true ->
             (rr_CNAME c = T /\ rr_Name c = M1) \/ (rr_CNAME c = M1 /\ rr_Name c = M2)) ->
  T <> M1 -> M1 <> M2 -> T <> M2 ->
  forall fuel, (3 <= fuel)%nat ->
    exists r', add fuel dns r = Some r'
               /\ name EndpointString r' (NewIPEndpoint (rr_IP a))
                  = T +:+ "," +:+ M1 +:+ "," +:+ M2.
Proof.
  intros Hans Ha HT Hpost Hc1 Hc2 Honly HTM1 HM12 HTM2 fuel Hfuel.
  assert (HkT : scan_cnames (Answers dns) !! T = Some M1).
  { apply scan_cnames_functional; [exact Hc1|].
    intros c Hin Hc Hk. destruct (Honly c Hin Hc) as [[_ ?] | [? _]]; congruence. }
  assert (HkM1 : scan_cnames (Answers dns) !! M1 = Some M2).
  { apply scan_cnames_functional; [exact Hc2|].
    intros c Hin Hc Hk. destruct (Honly c Hin Hc) as [[? _] | [_ ?]]; congruence. }
  assert (HkM2 : scan_cnames (Answers dns) !! M2 = None).
  { apply scan_cnames_absent. intros c Hin Hc.
    destruct (Honly c Hin Hc) as [[? _] | [? _]]; congruence. }
  assert (Hip : scan_ips (Answers dns) !! NewIPEndpoint (rr_IP a) = Some T).
  { rewrite Hans, <- HT. apply scan_ips_last; assumption. }
  set (rk := fun s : string =>
               if decide (s = T) then 2%nat else if decide (s = M1) then 1%nat else 0%nat).
  assert (Hrk : forall k v, scan_cnames (Answers dns) !! k = Some v -> (rk v < rk k)%nat).
  { intros k v Hkv. apply scan_cnames_Some in Hkv as (c & Hin & Hc & <- & <-).
    unfold rk. destruct (Honly c Hin Hc) as [[-> ->] | [-> ->]];
      repeat case_decide; try congruence; lia. }
  destruct (add_returns fuel dns r) as [r' Hr'].
  { intros e n _. apply (add_walk_ranked _ rk Hrk).
    assert (rk n <= 2)%nat by (unfold rk; repeat case_decide; lia). lia. }
  exists r'. split; [exact Hr'|].
  destruct (add_lookup _ _ _ _ _ _ Hr' Hip) as (names & Hw & Hl).
  unfold name. rewrite Hl.
  destruct fuel as [|[|[|fuel]]]; try lia.
  simpl in Hw. rewrite HkT, HkM1, HkM2 in Hw. injection Hw as <-. reflexivity.
Qed.

End learning.

(** A run of [add] calls, one per observed answer. *)
Fixpoint add_all (fuel : nat) (answers : list DNS) (r : gmap Endpoint string)
    : option (gmap Endpoint string) :=
  match answers with
  | [] => Some r
  | d :: rest =>
      match add fuel d r with
      | Some r' => add_all fuel rest r'
      | None => None
      end
  end.

(** [net.ParseIP] of a dotted quad: the 16-byte IPv4-in-IPv6 form. *)
Definition ParseIP4 (a b c d : Z) : IP := replicate 10 0 ++ [255; 255; a; b; c; d].

(** The answers of the repository's tests. *)
Definition golang_answer : DNS :=
  {| Answers := [ rr_A "golang.org" (ParseIP4 74 125 28 141) ] |}.

Definition dl_google_answer : DNS :=
  {| Answers := [ rr_A "dl.l.google.com" (ParseIP4 216 58 216 14);
                  rr_CNAME_of "dl.google.com" "dl.l.google.com" ] |}.

Example TestSingleReverseDNSMap :
  (fun r => (name dotted r (NewIPEndpoint (ParseIP4 74 125 28 141)),
             name dotted r (NewIPEndpoint (ParseIP4 1 2 3 4))))
    <$> add 1 golang_answer newReverseDNSMap
  = Some ("golang.org", "1.2.3.4").
Proof. vm_compute. reflexivity. Qed.

Example TestReverseDNSMapCNAMEChain :
  (fun r => name dotted r (NewIPEndpoint (ParseIP4 216 58 216 14)))
    <$> add 2 dl_google_answer newReverseDNSMap
  = Some "dl.l.google.com,dl.google.com".
Proof. vm_compute. reflexivity. Qed.

Section naming.

Variable EndpointString : Endpoint -> string.

Lemma add_all_unlearned fuel answers r rn e :
  add_all fuel answers r = Some rn ->
  (forall d, d ∈ answers -> forall a, a ∈ Answers d -> is_addr_rr a = true ->
             NewIPEndpoint (rr_IP a) <> e) ->
  rn !! e = r !! e.
Proof.
  revert r. induction answers as [|d rest IH]; intros r H Hun; simpl in H.
  - injection H as <-. reflexivity.
  - destruct (add fuel d r) as [r'|] eqn:Hd; [|discriminate].
    rewrite (IH r' H).
    + apply (add_lookup_other _ _ _ _ _ Hd), scan_ips_none.
      intros a Hin. apply (Hun d); [left | exact Hin].
    + intros d' Hin'. apply Hun. right. exact Hin'.
Qed.

(** C7. When an answer holds an IN record of type A or AAAA binding the
    name [N] to the address [I], and no CNAME record makes a name an
    alias of [N], then after [add] the name of the endpoint of [I] is
    [N] ([add] returning whenever the aliases in the answer are free of
    cycles); and an endpoint that no answer has taught is named by its own
    text. *)
Theorem name_after_add :
  (forall (r : gmap Endpoint string) (dns : DNS)
          (pre post : list DNSResourceRecord) (a : DNSResourceRecord),
      Answers dns = pre ++ a :: post ->
      is_addr_rr a = true ->
      (forall a', a' ∈ post -> is_addr_rr a' = true ->
                  NewIPEndpoint (rr_IP a') <> NewIPEndpoint (rr_IP a)) ->
      (forall c, c ∈ Answers dns -> is_cname_rr c = true -> rr_CNAME c <> rr_Name a) ->
      (forall fuel r', add fuel dns r = Some r' ->
                       name EndpointString r' (NewIPEndpoint (rr_IP a)) = rr_Name a)
      /\ (acyclic (scan_cnames (Answers dns)) ->
          exists fuel0, forall fuel, (fuel0 <= fuel)%nat -> is_Some (add fuel dns r)))
  /\ (forall (fuel : nat) (answers : list DNS) (rn : gmap Endpoint string) (e : Endpoint),
        add_all fuel answers newReverseDNSMap = Some rn ->
        (forall d, d ∈ answers -> forall a, a ∈ Answers d -> is_addr_rr a = true ->
                   NewIPEndpoint (rr_IP a) <> e) ->
        name EndpointString rn e = EndpointString e).
Proof.
  split.
  - intros r dns pre post a Hans Ha Hpost Hnoalias. split.
    + intros fuel r' Hr'.
      assert (Hip : scan_ips (Answers dns) !! NewIPEndpoint (rr_IP a) = Some (rr_Name a)).
      { rewrite Hans. apply scan_ips_last; assumption. }
      destruct (add_lookup _ _ _ _ _ _ Hr' Hip) as (names & Hw & Hl).
      unfold name. rewrite Hl.
      destruct fuel as [|fuel]; [discriminate Hw|].
      rewrite add_walk_unaliased in Hw by (apply scan_cnames_absent, Hnoalias).
      injection Hw as <-. reflexivity.
    + apply add_returns_acyclic.
  - intros fuel answers rn e Hrun Hun.
    unfold name. rewrite (add_all_unlearned _ _ _ _ _ Hrun Hun).
    reflexivity.
Qed.

End naming.

Lemma name_after_add_witness :
  add 1 golang_answer newReverseDNSMap
  = Some (<[NewIPEndpoint (ParseIP4 74 125 28 141) := "golang.org"]> newReverseDNSMap)
  /\ name dotted (<[NewIPEndpoint (ParseIP4 74 125 28 141) := "golang.org"]> newReverseDNSMap)
       (NewIPEndpoint (ParseIP4 74 125 28 141)) = "golang.org".
Proof.
  assert (Hadd : add 1 golang_answer newReverseDNSMap
                 = Some (<[NewIPEndpoint (ParseIP4 74 125 28 141) := "golang.org"]>
                           newReverseDNSMap))
    by (vm_compute; reflexivity).
  split; [exact Hadd|].
  refine (proj1 (proj1 (name_after_add dotted) newReverseDNSMap golang_answer
                   [] [] (rr_A "golang.org" (ParseIP4 74 125 28 141))
                   eq_refl eq_refl _ _) 1%nat _ Hadd).
  - intros a' Hin. apply elem_of_nil in Hin. destruct Hin.
  - intros c Hin Hc. apply list_elem_of_singleton in Hin as ->. discriminate Hc.
Defined.

(** A chain of two aliases above the terminal name. *)
Definition chain_answer : DNS :=
  {| Answers := [ rr_A "dl.l.google.com" [216; 58; 216; 14];
                  rr_CNAME_of "dl.google.com" "dl.l.google.com";
                  rr_CNAME_of "downloads.example" "dl.google.com" ] |}.

Lemma add_cname_chain_witness :
  exists r', add 3 chain_answer newReverseDNSMap = Some r'
             /\ name dotted r' (NewIPEndpoint [216; 58; 216; 14])
                = "dl.l.google.com,dl.google.com,downloads.example".
Proof.
  apply (add_cname_chain dotted newReverseDNSMap chain_answer []
           [ rr_CNAME_of "dl.google.com" "dl.l.google.com";
             rr_CNAME_of "downloads.example" "dl.google.com" ]
           (rr_A "dl.l.google.com" [216; 58; 216; 14])
           "dl.l.google.com" "dl.google.com" "downloads.example").
  - reflexivity.
  - reflexivity.
  - reflexivity.
  - intros a' Hin Ha'. exfalso.
    apply elem_of_cons in Hin as [-> | Hin]; [discriminate Ha'|].
    apply elem_of_cons in Hin as [-> | Hin]; [discriminate Ha'|].
    apply elem_of_nil in Hin. exact Hin.
  - exists (rr_CNAME_of "dl.google.com" "dl.l.google.com").
    split; [right; left | repeat split].
  - exists (rr_CNAME_of "downloads.example" "dl.google.com").
    split; [right; right; left | repeat split].
  - intros c Hin Hc.
    apply elem_of_cons in Hin as [-> | Hin]; [discriminate Hc|].
    apply elem_of_cons in Hin as [-> | Hin]; [left; split; reflexivity|].
    apply elem_of_cons in Hin as [-> | Hin]; [right; split; reflexivity|].
    apply elem_of_nil in Hin. destruct Hin.
  - discriminate.
  - discriminate.
  - discriminate.
  - lia.
Defined.

(** ** The decoder worker *)

Section worker_facts.

Variable EndpointString : Endpoint -> string.
Variable fuel : nat.
Variable f : Frame.

Local Abbreviation layers_from := (processor_layers EndpointString fuel f).

Lemma processor_layers_app ls1 ls2 st :
  layers_from (ls1 ++ ls2) st
  = match layers_from ls1 st with
    | Some st' => layers_from ls2 st'
    | None => None
    end.
Proof.
  revert st. induction ls1 as [|l ls1 IH]; intros st; simpl; [reflexivity|].
  destruct (processor_layer EndpointString fuel f st l); [apply IH | reflexivity].
Qed.

(** Layers other than DNS leave the map alone. *)
Lemma processor_layers_no_dns ls b rm :
  LayerTypeDNS ∉ ls -> exists b', layers_from ls (b, rm) = Some (b', rm).
Proof.
  revert b. induction ls as [|l ls IH]; intros b Hno; simpl; [eauto|].
  apply not_elem_of_cons in Hno as [Hl Hno].
  destruct l; simpl; try destruct (names _ _ _); try (apply IH, Hno).
  congruence.
Qed.

(** Layers other than IP and DNS build the same record whatever the map,
    and leave its names alone. *)
Lemma processor_layers_plain ls b :
  LayerTypeIPv4 ∉ ls -> LayerTypeIPv6 ∉ ls -> LayerTypeDNS ∉ ls ->
  exists b', (forall rm, layers_from ls (b, rm) = Some (b', rm))
             /\ SrcName b' = SrcName b /\ DstName b' = DstName b.
Proof.
  revert b. induction ls as [|l ls IH]; intros b H4 H6 Hd; simpl; [eauto|].
  apply not_elem_of_cons in H4 as [Hl4 H4].
  apply not_elem_of_cons in H6 as [Hl6 H6].
  apply not_elem_of_cons in Hd as [Hld Hd].
  destruct l; try congruence; simpl.
  - apply (IH b H4 H6 Hd).
  - match goal with |- context [layers_from ls (?b1, _)] =>
      destruct (IH b1 H4 H6 Hd) as (b' & Hb' & Hs & Hdn) end.
    exists b'. auto.
  - match goal with |- context [layers_from ls (?b1, _)] =>
      destruct (IH b1 H4 H6 Hd) as (b' & Hb' & Hs & Hdn) end.
    exists b'. auto.
  - apply (IH b H4 H6 Hd).
Qed.

(** When no IP layer decoded, the record keeps its nil addresses, its
    empty names and a false [V6] flag. *)
Lemma processor_layers_no_ip ls b rm b' rm' :
  LayerTypeIPv4 ∉ ls -> LayerTypeIPv6 ∉ ls ->
  layers_from ls (b, rm) = Some (b', rm') ->
  SrcIP b' = SrcIP b /\ DstIP b' = DstIP b /\ V6 b' = V6 b
  /\ SrcName b' = SrcName b /\ DstName b' = DstName b.
Proof.
  revert b rm. induction ls as [|l ls IH]; intros b rm H4 H6 H; simpl in H.
  - injection H as <- <-. auto.
  - apply not_elem_of_cons in H4 as [Hl4 H4].
    apply not_elem_of_cons in H6 as [Hl6 H6].
    destruct l; try congruence; simpl in H;
      try (destruct (add fuel (dns f) rm); [|discriminate]);
      apply (IH _ _ H4 H6) in H; exact H.
Qed.

End worker_facts.

Lemma processor_frame_no_ip EndpointString fuel rm f b rm' :
  LayerTypeIPv4 ∉ decoded f -> LayerTypeIPv6 ∉ decoded f ->
  processor_frame EndpointString fuel rm f = Some (b, rm') ->
  SrcIP b = [] /\ DstIP b = [] /\ V6 b = false /\ SrcName b = "" /\ DstName b = "".
Proof.
  intros H4 H6 H.
  apply (processor_layers_no_ip _ _ _ _ _ _ _ _ H4 H6) in H. exact H.
Qed.

(** The IP layer of either family, and the flow the worker reads from it. *)
Definition ip_layer (v6 : bool) : LayerType :=
  if v6 then LayerTypeIPv6 else LayerTypeIPv4.

Definition ip_flow (v6 : bool) (f : Frame) : Flow :=
  if v6 then NetworkFlow6 (ip6 f) else NetworkFlow4 (ip4 f).

(** C1, as the worker does it.  The layers are handled in decoding order,
    in which the IP layer comes before the DNS layer: the names of the
    record are resolved at the IP layer, against the map as it stands
    before the frame's answer is added, and [add] runs at the DNS layer.
    So the frame's record is one and the same whatever [add] makes of the
    map, and the answer's bindings serve from the next frame on. *)
Theorem processor_frame_names_then_add (EndpointString : Endpoint -> string)
    (fuel : nat) (rm : gmap Endpoint string) (f : Frame)
    (before between after : list LayerType) (v6 : bool) :
  decoded f = before ++ [ip_layer v6] ++ between ++ [LayerTypeDNS] ++ after ->
  LayerTypeDNS ∉ before ->
  LayerTypeIPv4 ∉ between ++ after -> LayerTypeIPv6 ∉ between ++ after ->
  LayerTypeDNS ∉ between ++ after ->
  exists b,
    (SrcName b, DstName b) = names EndpointString rm (ip_flow v6 f)
    /\ processor_frame EndpointString fuel rm f
       = (fun rm' => (b, rm')) <$> add fuel (dns f) rm.
Proof.
  intros Hdec Hbefore H4 H6 Hd.
  apply not_elem_of_app in H4 as [H4b H4a].
  apply not_elem_of_app in H6 as [H6b H6a].
  apply not_elem_of_app in Hd as [Hdb Hda].
  unfold processor_frame. rewrite Hdec.
  set (b0 := {| Timestamp := ci_Timestamp f |}).
  destruct (processor_layers_no_dns EndpointString fuel f before b0 rm Hbefore)
    as [b1 Hb1].
  rewrite processor_layers_app, Hb1.
  assert (Hip : exists b2,
             processor_layer EndpointString fuel f (b1, rm) (ip_layer v6) = Some (b2, rm)
             /\ (SrcName b2, DstName b2) = names EndpointString rm (ip_flow v6 f)).
  { destruct v6; cbn [processor_layer ip_layer ip_flow];
      destruct (names EndpointString rm _) as [s d]; eexists; split; reflexivity. }
  destruct Hip as (b2 & Hb2 & Hnames).
  cbn [app processor_layers]. rewrite Hb2.
  destruct (processor_layers_plain EndpointString fuel f between b2 H4b H6b Hdb)
    as (b3 & Hb3 & Hs3 & Hd3).
  rewrite processor_layers_app, Hb3. cbn [app processor_layers processor_layer].
  destruct (processor_layers_plain EndpointString fuel f after b3 H4a H6a Hda)
    as (b4 & Hb4 & Hs4 & Hd4).
  exists b4. split.
  - rewrite Hs4, Hd4, Hs3, Hd3. exact Hnames.
  - destruct (add fuel (dns f) rm) as [rm'|]; simpl; [apply Hb4 | reflexivity].
Qed.

(** A reply of the resolver 8.8.8.8 to the client 10.0.0.1 that names the
    resolver itself, and a map holding older names for both hosts. *)
Definition dns_google_frame : Frame :=
  {| decoded := [LayerTypeEthernet; LayerTypeIPv4; LayerTypeUDP; LayerTypeDNS];
     ci_Timestamp := 0; ci_Length := 90;
     ip4 := {| hdr_SrcIP := [8; 8; 8; 8]; hdr_DstIP := [10; 0; 0; 1] |};
     ip6 := {| hdr_SrcIP := []; hdr_DstIP := [] |};
     tcp := {| hdr_SrcPort := 0; hdr_DstPort := 0 |};
     udp := {| hdr_SrcPort := 53; hdr_DstPort := 40000 |};
     dns := {| Answers := [ rr_A "dns.google" [8; 8; 8; 8] ] |} |}.

Definition older_names : gmap Endpoint string :=
  <[NewIPEndpoint [8; 8; 8; 8] := "old.example"]>
    (<[NewIPEndpoint [10; 0; 0; 1] := "laptop.lan"]> newReverseDNSMap).

(** The record the worker builds for that frame, and the map afterwards. *)
Definition stale_record : Metadata :=
  {| Timestamp := 0; Size := 90;
     SrcName := "old.example"; DstName := "laptop.lan";
     SrcIP := [8; 8; 8; 8]; DstIP := [10; 0; 0; 1];
     SrcPort := 53; DstPort := 40000; V6 := false |}.

Definition newer_names : gmap Endpoint string :=
  <[NewIPEndpoint [8; 8; 8; 8] := "dns.google"]> older_names.

(** The record of the frame carrying the answer still has the older name
    of its source, while the map after the frame has the name from the
    answer. *)
Lemma processor_frame_misses_own_answer :
  processor_frame dotted 1 older_names dns_google_frame = Some (stale_record, newer_names)
  /\ SrcName stale_record = "old.example"
  /\ name dotted newer_names (NewIPEndpoint [8; 8; 8; 8]) = "dns.google"
  /\ SrcName stale_record <> name dotted newer_names (NewIPEndpoint [8; 8; 8; 8]).
Proof.
  assert (Hname : name dotted newer_names (NewIPEndpoint [8; 8; 8; 8]) = "dns.google")
    by (vm_compute; reflexivity).
  split; [vm_compute; reflexivity|].
  split; [reflexivity|]. split; [exact Hname|].
  rewrite Hname. discriminate.
Qed.

Lemma processor_frame_names_then_add_witness :
  exists b,
    (SrcName b, DstName b) = ("old.example", "laptop.lan")
    /\ processor_frame dotted 1 older_names dns_google_frame
       = (fun rm' => (b, rm')) <$> add 1 (dns dns_google_frame) older_names.
Proof.
  apply (processor_frame_names_then_add dotted 1 older_names dns_google_frame
           [LayerTypeEthernet] [LayerTypeUDP] [] false).
  - reflexivity.
  - intros H. apply list_elem_of_singleton in H. discriminate H.
  - intros H. apply list_elem_of_singleton in H. discriminate H.
  - intros H. apply list_elem_of_singleton in H. discriminate H.
  - intros H. apply list_elem_of_singleton in H. discriminate H.
Defined.

(** The frame that follows, from the newly named host. *)
Definition follow_up_frame : Frame :=
  {| decoded := [LayerTypeEthernet; LayerTypeIPv4; LayerTypeTCP; LayerTypePayload];
     ci_Timestamp := 1; ci_Length := 1500;
     ip4 := {| hdr_SrcIP := [8; 8; 8; 8]; hdr_DstIP := [10; 0; 0; 7] |};
     ip6 := {| hdr_SrcIP := []; hdr_DstIP := [] |};
     tcp := {| hdr_SrcPort := 443; hdr_DstPort := 52000 |};
     udp := {| hdr_SrcPort := 0; hdr_DstPort := 0 |};
     dns := {| Answers := [] |} |}.

Example learned_names_serve_the_next_frame :
  (match processor_frame dotted 1 newReverseDNSMap dns_google_frame with
   | Some (_, rm') =>
       (fun st => (SrcName st.1, DstName st.1)) <$> processor_frame dotted 1 rm' follow_up_frame
   | None => None
   end) = Some ("dns.google", "10.0.0.7").
Proof. vm_compute. reflexivity. Qed.

(** ** The buffer ring *)

Section buffer_ring.

Variable BufferSize : Z.

(** What touches the ring: a worker taking its next buffer, and a
    [logBuffer] goroutine handing back the buffer [b] it was given. *)
Inductive RingOp :=
| OpNext
| OpReturn (b : Buffer).

Definition ring_step (ring : list Buffer) (op : RingOp) : list Buffer :=
  match op with
  | OpNext =>
      match nextBuffer BufferSize ring with
      | Some (_, ring') => ring'
      | None => ring
      end
  | OpReturn b => logBuffer_return b ring
  end.

(** The ring after a run of operations on the empty channel [Live] makes. *)
Definition ring_after (ops : list RingOp) : list Buffer := foldl ring_step [] ops.

Definition ring_ok (ring : list Buffer) : Prop :=
  Forall (fun b => length (elems b) = 0%nat) ring /\ (length ring <= maxBuffers)%nat.

Lemma ring_step_ok ring op : ring_ok ring -> ring_ok (ring_step ring op).
Proof.
  intros [Hall Hlen]. destruct op as [|b]; simpl.
  - unfold nextBuffer. destruct ring as [|b0 ring'].
    + destruct (BufferSize <? 0); split; simpl; auto; lia.
    + apply Forall_cons in Hall as [_ Hall]. simpl in Hlen. split; [exact Hall | lia].
  - unfold logBuffer_return. destruct (length ring <? maxBuffers)%nat eqn:E.
    + apply Nat.ltb_lt in E. split.
      * apply Forall_app. split; [exact Hall|]. repeat constructor.
      * rewrite length_app. simpl. lia.
    + split; assumption.
Qed.

Lemma ring_after_ok ops : ring_ok (ring_after ops).
Proof.
  unfold ring_after. induction ops as [|op ops IH] using rev_ind.
  - split; [constructor | simpl; lia].
  - rewrite foldl_snoc. apply ring_step_ok, IH.
Qed.

(** C9. Every buffer a worker acquires has length 0.  After any run of
    acquisitions and returns, every buffer in the ring is empty and the
    ring holds at most 100; [nextBuffer] gives the oldest buffer of the
    ring when there is one, and otherwise a new one of length 0 and
    capacity [BufferSize]; [logBuffer] puts the buffer back cut to length
    0 while the ring holds fewer than 100, and drops it otherwise. *)
Theorem nextBuffer_empty (ops : list RingOp) :
  0 <= BufferSize ->
  let ring := ring_after ops in
  (Forall (fun b => length (elems b) = 0%nat) ring /\ (length ring <= 100)%nat)
  /\ (exists b ring',
        nextBuffer BufferSize ring = Some (b, ring')
        /\ length (elems b) = 0%nat
        /\ (ring = b :: ring'
            \/ (ring = [] /\ ring' = [] /\ cap b = BufferSize)))
  /\ (forall b,
        ((length ring < 100)%nat ->
           logBuffer_return b ring = ring ++ [ {| elems := []; cap := cap b |} ])
        /\ ((length ring = 100)%nat -> logBuffer_return b ring = ring)).
Proof.
  intros Hsize. cbv zeta.
  pose proof (ring_after_ok ops) as [Hall Hlen].
  split; [split; [exact Hall | exact Hlen]|]. split.
  - unfold nextBuffer. destruct (ring_after ops) as [|b ring'].
    + assert (E : (BufferSize <? 0) = false) by (apply Z.ltb_ge; lia).
      rewrite E. eexists _, _. split; [reflexivity|]. simpl. auto.
    + apply Forall_cons in Hall as [Hb _]. exists b, ring'. auto.
  - intros b. unfold logBuffer_return, maxBuffers. split; intros H.
    + apply Nat.ltb_lt in H. rewrite H. reflexivity.
    + rewrite H. reflexivity.
Qed.

End buffer_ring.

(** A full buffer of two records, handed back and taken again. *)
Definition full_buffer : Buffer :=
  {| elems := [no_ip_record; no_ip_record]; cap := 2 |}.

Lemma nextBuffer_empty_witness :
  exists b ring',
    nextBuffer 2 (ring_after 2 [OpNext; OpReturn full_buffer]) = Some (b, ring')
    /\ length (elems b) = 0%nat
    /\ (ring_after 2 [OpNext; OpReturn full_buffer] = b :: ring'
        \/ (ring_after 2 [OpNext; OpReturn full_buffer] = [] /\ ring' = [] /\ cap b = 2)).
Proof.
  apply (nextBuffer_empty 2 [OpNext; OpReturn full_buffer]). lia.
Defined.

(** ** The writer to InfluxDB *)

Section retry_policy.

Import main.

Variable post : nat -> PostResult.
Variable Int63n : nat -> Z -> Z.

(** [rand.Int63n(n)] lies in [[0, n)]. *)
Hypothesis Int63n_range : forall i n, 0 < n -> 0 <= Int63n i n < n.

(** The base of the wait after the [i]-th failure: 100 ms, doubled [i]
    times, in nanoseconds. *)
Definition backoff (i : nat) : Z := 100 * Millisecond * 2 ^ Z.of_nat i.

(** The transport errors in a row from attempt [i] on, among [remaining]. *)
Fixpoint leading_errors (remaining i : nat) : nat :=
  match remaining with
  | O => O
  | S remaining' =>
      match post i with
      | TransportError => S (leading_errors remaining' (S i))
      | Response _ => O
      end
  end.

Definition status_at (i : nat) : string :=
  match post i with
  | Response status => status
  | TransportError => ""
  end.

Definition is_Post (e : Event) : bool :=
  match e with Post _ => true | _ => false end.

(** The trace the policy prescribes: after each of the [k] failures a
    wait of [backoff i] plus a random part below it, then, if attempts
    are left, the attempt that got a response, and its status. *)
Definition policy_trace (data : list Metadata) (k : nat) : list Event :=
  LogWriting (length data)
  :: flat_map (fun i => [Post data; LogError; Wait (backoff i + Int63n i (backoff i))])
       (seq 0 k)
  ++ (if (k <? influxRetryLimit)%nat then [Post data; LogStatus (status_at k)] else []).

Lemma wrap_int64_small x : - 2 ^ 63 <= x < 2 ^ 63 -> wrap_int64 x = x.
Proof. intros H. unfold wrap_int64. rewrite Z.mod_small; lia. Qed.

Lemma backoff_wait i :
  (i < 5)%nat ->
  wrap_int64 (backoff i + Int63n i (backoff i)) = backoff i + Int63n i (backoff i)
  /\ backoff i <= backoff i + Int63n i (backoff i) < 2 * backoff i.
Proof.
  intros Hi.
  assert (Hb : 0 < backoff i <= 1600000000).
  { do 5 (destruct i as [|i]; [vm_compute; split; [reflexivity | discriminate]|]). lia. }
  pose proof (Int63n_range i (backoff i) (proj1 Hb)) as Hr.
  split; [apply wrap_int64_small|]; lia.
Qed.

(** C8. For a non-empty batch the writer posts at most 5 times.  After
    each transport error it waits [backoff i] plus a random part in
    [[0, backoff i)], where [backoff] starts at 100 ms and doubles with
    each failure, and then tries again while attempts are left; on any
    response it logs the status and stops. *)
Theorem writePackets_retry_policy (data : list Metadata) :
  data <> [] ->
  let k := leading_errors influxRetryLimit 0 in
  let trace := writePackets post Int63n data in
  trace = policy_trace data k
  /\ (length (filter is_Post trace) <= 5)%nat
  /\ length (filter is_Post trace) = Nat.min (S k) 5
  /\ (forall i, (i < k)%nat ->
        post i = TransportError
        /\ backoff i <= backoff i + Int63n i (backoff i) < 2 * backoff i)
  /\ (forall l1 status l2, trace = l1 ++ LogStatus status :: l2 -> l2 = []).
Proof.
  intros Hdata. cbv zeta.
  assert (Htrace : writePackets post Int63n data
                   = policy_trace data (leading_errors influxRetryLimit 0)).
  { unfold writePackets, policy_trace, status_at.
    destruct data as [|m data']; [congruence|]. cbn [length Nat.eqb].
    f_equal. unfold influxRetryLimit.
    change (wrap_int64 (100 * Millisecond)) with (backoff 0).
    cbn [writePackets_loop leading_errors].
    destruct (post 0%nat) eqn:E0; [|cbn; rewrite E0; reflexivity].
    rewrite (proj1 (backoff_wait 0 ltac:(lia))).
    change (wrap_int64 (backoff 0 * 2)) with (backoff 1).
    destruct (post 1%nat) eqn:E1; [|cbn; rewrite E1; reflexivity].
    rewrite (proj1 (backoff_wait 1 ltac:(lia))).
    change (wrap_int64 (backoff 1 * 2)) with (backoff 2).
    destruct (post 2%nat) eqn:E2; [|cbn; rewrite E2; reflexivity].
    rewrite (proj1 (backoff_wait 2 ltac:(lia))).
    change (wrap_int64 (backoff 2 * 2)) with (backoff 3).
    destruct (post 3%nat) eqn:E3; [|cbn; rewrite E3; reflexivity].
    rewrite (proj1 (backoff_wait 3 ltac:(lia))).
    change (wrap_int64 (backoff 3 * 2)) with (backoff 4).
    destruct (post 4%nat) eqn:E4; [|cbn; rewrite E4; reflexivity].
    rewrite (proj1 (backoff_wait 4 ltac:(lia))).
    reflexivity. }
  assert (Hk : (leading_errors influxRetryLimit 0 <= 5)%nat).
  { unfold influxRetryLimit. cbn [leading_errors].
    repeat match goal with |- context [post ?i] => destruct (post i) end; lia. }
  assert (Hposts : length (filter is_Post (policy_trace data (leading_errors influxRetryLimit 0)))
                   = Nat.min (S (leading_errors influxRetryLimit 0)) 5).
  { revert Hk. generalize (leading_errors influxRetryLimit 0). intros k Hk.
    do 6 (destruct k as [|k]; [reflexivity|]). lia. }
  rewrite Htrace. split; [reflexivity|]. split; [rewrite Hposts; lia|].
  split; [exact Hposts|]. split.
  - intros i Hi. split; [|apply backoff_wait; lia].
    revert Hi. unfold influxRetryLimit. cbn [leading_errors].
    destruct (post 0%nat) eqn:E0; [|lia].
    destruct (post 1%nat) eqn:E1; [|intros; assert (i = 0)%nat as -> by lia; exact E0].
    destruct (post 2%nat) eqn:E2;
      [|intros; do 2 (destruct i as [|i]; [assumption|]); lia].
    destruct (post 3%nat) eqn:E3;
      [|intros; do 3 (destruct i as [|i]; [assumption|]); lia].
    destruct (post 4%nat) eqn:E4;
      [|intros; do 4 (destruct i as [|i]; [assumption|]); lia].
    intros; do 5 (destruct i as [|i]; [assumption|]); lia.
  - revert Hk. generalize (leading_errors influxRetryLimit 0). intros k Hk l1 status l2.
    unfold policy_trace.
    do 6 (destruct k as [|k];
          [ cbn; intros H;
            repeat (destruct l1 as [|? l1]; [discriminate H || (injection H as _ <-; reflexivity)|];
                    injection H as _ H);
            destruct l1; discriminate H |]).
    lia.
Qed.

End retry_policy.

(** A sink that fails twice and then answers, and a generator that always
    draws 0. *)
Definition flaky_sink (i : nat) : main.PostResult :=
  if (i <? 2)%nat then main.TransportError else main.Response "204 No Content".

Definition no_jitter (i : nat) (n : Z) : Z := 0.

Example three_attempts :
  main.writePackets flaky_sink no_jitter [no_ip_record]
  = [ main.LogWriting 1;
      main.Post [no_ip_record]; main.LogError; main.Wait 100000000;
      main.Post [no_ip_record]; main.LogError; main.Wait 200000000;
      main.Post [no_ip_record]; main.LogStatus "204 No Content" ].
Proof. vm_compute. reflexivity. Qed.

Example empty_batch_is_not_posted :
  forall post Int63n, main.writePackets post Int63n [] = [].
Proof. reflexivity. Qed.

Lemma writePackets_retry_policy_witness :
  let trace := main.writePackets flaky_sink no_jitter [no_ip_record] in
  trace = policy_trace flaky_sink no_jitter [no_ip_record]
            (leading_errors flaky_sink main.influxRetryLimit 0)
  /\ (length (filter is_Post trace) <= 5)%nat.
Proof.
  assert (Hrange : forall (i : nat) (n : Z), 0 < n -> 0 <= no_jitter i n < n)
    by (intros i n Hn; unfold no_jitter; lia).
  assert (Hdata : [no_ip_record] <> []) by discriminate.
  destruct (writePackets_retry_policy flaky_sink no_jitter Hrange [no_ip_record] Hdata)
    as (Htrace & Hposts & _).
  split; [exact Htrace | exact Hposts].
Defined.

(** * More of the code *)

(** ** classify.go: [local] and the forms of an address *)

Lemma canon_To4 ip x : To4 ip = Some x -> canon ip = x /\ canon x = x.
Proof.
  intros H. unfold canon at 1. rewrite H. split; [reflexivity|].
  pose proof (To4_length _ _ H) as Hl. unfold canon, To4.
  apply Nat.eqb_eq in Hl. rewrite Hl. reflexivity.
Qed.

Lemma Contains_To4 n ip x : To4 ip = Some x -> Contains n ip = Contains n x.
Proof.
  intros H. destruct (canon_To4 ip x H) as [H1 H2].
  unfold Contains. rewrite H1, H2. reflexivity.
Qed.

(** X1. An address in the 16-byte IPv4-in-IPv6 form, as [net.ParseIP]
    gives it, is classified by [IsLocal] as its 4-byte form, as the packet
    layers give it. *)
Theorem IsLocal_To4 (LocalNetblock : option IPNet) (ip x : IP) :
  To4 ip = Some x -> IsLocal LocalNetblock ip = IsLocal LocalNetblock x.
Proof.
  intros H. unfold IsLocal.
  assert (Hstd : existsb (fun cidr => Contains cidr ip) stdLocalNets
                 = existsb (fun cidr => Contains cidr x) stdLocalNets).
  { induction stdLocalNets as [|n l IH]; [reflexivity|].
    simpl. rewrite IH, (Contains_To4 n ip x H). reflexivity. }
  rewrite Hstd. destruct LocalNetblock as [nb|]; [|reflexivity].
  rewrite (Contains_To4 nb ip x H). reflexivity.
Qed.

Lemma IsLocal_To4_witness :
  IsLocal None (ParseIP4 192 168 1 2) = IsLocal None [192; 168; 1; 2].
Proof. apply IsLocal_To4. reflexivity. Defined.

(** X2. [local] returns one of its two arguments, and a local one
    whenever either of them is local; when neither is, it returns the
    second. *)
Theorem local_most_local (LocalNetblock : option IPNet) (ip1 ip2 : IP) :
  (local LocalNetblock ip1 ip2 = ip1 \/ local LocalNetblock ip1 ip2 = ip2)
  /\ IsLocal LocalNetblock (local LocalNetblock ip1 ip2)
     = IsLocal LocalNetblock ip1 || IsLocal LocalNetblock ip2
  /\ (IsLocal LocalNetblock ip1 = false -> local LocalNetblock ip1 ip2 = ip2).
Proof.
  unfold local. destruct (IsLocal LocalNetblock ip1) eqn:E1.
  - rewrite E1. repeat split; auto. discriminate.
  - repeat split; auto.
Qed.

(** ** accounting.go: what each counter counts *)

Section tallies.

Import dashboard.

Variable LocalNetblock : option IPNet.

(** The packets a counter is for, and their sizes and number as [uint64]. *)
Definition tally (p : Metadata -> bool) (ms : list Metadata) : Aggregation :=
  {| Bytes := sizes (filter (fun m => p m = true) ms) mod uint64_mod;
     Packets := Z.of_nat (length (filter (fun m => p m = true) ms)) mod uint64_mod |}.

Definition src_local (m : Metadata) : bool := isLocal LocalNetblock (SrcIP m).
Definition dst_local (m : Metadata) : bool := isLocal LocalNetblock (DstIP m).

Definition is_internal (m : Metadata) : bool := src_local m && dst_local m.
Definition is_up (m : Metadata) : bool := src_local m && negb (dst_local m).
Definition is_down (m : Metadata) : bool := negb (src_local m) && dst_local m.
Definition is_external (m : Metadata) : bool := negb (src_local m) && negb (dst_local m).
Definition is_v4 (m : Metadata) : bool := negb (is_internal m) && negb (packets.V6 m).
Definition is_v6 (m : Metadata) : bool := negb (is_internal m) && packets.V6 m.

Lemma tally_nil p : tally p [] = zero.
Proof. reflexivity. Qed.

Lemma tally_snoc_true p ms m :
  p m = true -> tally p (ms ++ [m]) = Add (tally p ms) (Size m).
Proof.
  intros Hp. unfold tally, Add, add64. rewrite filter_app.
  rewrite (filter_cons_True _ m []) by exact Hp. rewrite filter_nil.
  rewrite sizes_app, length_app. cbn [length Bytes Packets].
  rewrite !Zplus_mod_idemp_l. f_equal. f_equal. lia.
Qed.

Lemma tally_snoc_false p ms m :
  p m = false -> tally p (ms ++ [m]) = tally p ms.
Proof.
  intros Hp. unfold tally. rewrite filter_app.
  rewrite (filter_cons_False _ m []) by congruence. rewrite filter_nil, app_nil_r.
  reflexivity.
Qed.

(** X3. After any run of [AddPacket] calls from the zero state, every
    counter holds, modulo [2^64], the bytes and the number of the packets
    of its kind: [Total] all of them, [Internal], [Up], [Down] and
    [External] those whose source and destination are local/local,
    local/other, other/local and other/other, and [V4] and [V6] those not
    internal, by the [V6] flag. *)
Theorem AddPackets_tallies (ms : list Metadata) :
  let v := AddPackets LocalNetblock vals0 ms in
  Total v = tally (fun _ => true) ms
  /\ Internal v = tally is_internal ms
  /\ Up v = tally is_up ms
  /\ Down v = tally is_down ms
  /\ External v = tally is_external ms
  /\ V4 v = tally is_v4 ms
  /\ V6 v = tally is_v6 ms.
Proof.
  cbv zeta. induction ms as [|m ms IH] using rev_ind.
  - repeat split; reflexivity.
  - destruct IH as (HT & HI & HU & HD & HE & H4 & H6).
    rewrite AddPackets_snoc.
    unfold AddPacket, add_subtotal, add_family. fold (src_local m) (dst_local m).
    rewrite (tally_snoc_true (fun _ => true)) by reflexivity.
    destruct (src_local m) eqn:Es, (dst_local m) eqn:Ed, (packets.V6 m) eqn:E6;
      cbn [andb negb Total Internal Up Down External V4 V6];
      rewrite HT, HI, HU, HD, HE, H4, H6;
      repeat split;
      first [ reflexivity
            | symmetry; apply tally_snoc_true;
              unfold is_internal, is_up, is_down, is_external, is_v4, is_v6, is_internal;
              rewrite ?Es, ?Ed, ?E6; reflexivity
            | symmetry; apply tally_snoc_false;
              unfold is_internal, is_up, is_down, is_external, is_v4, is_v6, is_internal;
              rewrite ?Es, ?Ed, ?E6; reflexivity ].
Qed.

End tallies.

(** ** revdns.go: what [add] keeps, ignores and stores *)

Section more_add.

Variable EndpointString : Endpoint -> string.

(** X4. [add] only adds: an endpoint the answer has no IN address record
    for keeps its binding, no bound endpoint loses its binding, and [len]
    does not go down. *)
Theorem add_only_adds (fuel : nat) (dns : DNS) (r r' : gmap Endpoint string) :
  add fuel dns r = Some r' ->
  (forall e, (forall a, a ∈ Answers dns -> is_addr_rr a = true ->
                        NewIPEndpoint (rr_IP a) <> e) ->
             r' !! e = r !! e)
  /\ (forall e, is_Some (r !! e) -> is_Some (r' !! e))
  /\ (len r <= len r')%nat.
Proof.
  intros Hadd.
  assert (Hkeep : forall e, is_Some (r !! e) -> is_Some (r' !! e)).
  { intros e He. destruct (scan_ips (Answers dns) !! e) as [n|] eqn:E.
    - destruct (add_lookup _ _ _ _ _ _ Hadd E) as (names & _ & ->). eauto.
    - rewrite (add_lookup_other _ _ _ _ _ Hadd E). exact He. }
  split; [|split; [exact Hkeep|]].
  - intros e He. apply (add_lookup_other _ _ _ _ _ Hadd), scan_ips_none, He.
  - unfold len. rewrite <- !size_dom. apply subseteq_size.
    intros e. rewrite !elem_of_dom. apply Hkeep.
Qed.

Lemma add_only_adds_witness :
  (len newReverseDNSMap
   <= len (<[NewIPEndpoint (ParseIP4 74 125 28 141) := "golang.org"]> newReverseDNSMap))%nat.
Proof.
  apply (add_only_adds 1 golang_answer newReverseDNSMap). vm_compute. reflexivity.
Defined.

(** The records that reach a bucket. *)
Definition is_kept_rr (a : DNSResourceRecord) : bool := is_addr_rr a || is_cname_rr a.

Lemma add_scan_filter answers acc :
  foldl add_scan_step acc (filter (fun a => is_kept_rr a = true) answers)
  = foldl add_scan_step acc answers.
Proof.
  revert acc. induction answers as [|a answers IH]; intros acc; [reflexivity|].
  destruct (is_kept_rr a) eqn:E.
  - rewrite filter_cons_True by exact E. simpl. apply IH.
  - rewrite filter_cons_False by congruence. simpl. rewrite IH.
    f_equal. rewrite add_scan_step_cases.
    unfold is_kept_rr in E. apply orb_false_iff in E as [-> ->]. reflexivity.
Qed.

(** X5. Records of a class other than IN, and IN records of a type other
    than A, AAAA and CNAME, are without any effect: [add] does to the map
    what it does on the answer without them. *)
Theorem add_ignores_other_records (fuel : nat) (answers : list DNSResourceRecord)
    (r : gmap Endpoint string) :
  add fuel {| Answers := answers |} r
  = add fuel {| Answers := filter (fun a => is_kept_rr a = true) answers |} r.
Proof.
  unfold add, add_scan. cbn [Answers]. rewrite add_scan_filter. reflexivity.
Qed.

(** The names [ms] are the aliases above [n], in order, and the last of
    them has no alias. *)
Fixpoint alias_chain (cnames : gmap string string) (n : string) (ms : list string) : Prop :=
  match ms with
  | [] => cnames !! n = None
  | m :: ms' => cnames !! n = Some m /\ alias_chain cnames m ms'
  end.

Lemma add_walk_chain cnames n ms :
  alias_chain cnames n ms ->
  forall fuel names,
    ((length ms < fuel)%nat -> add_walk fuel cnames n names = Some (names ++ n :: ms))
    /\ ((fuel <= length ms)%nat -> add_walk fuel cnames n names = None).
Proof.
  revert n. induction ms as [|m ms IH]; intros n Hc fuel names; simpl in Hc.
  - split; intros Hf.
    + destruct fuel as [|fuel]; [lia|]. apply add_walk_unaliased, Hc.
    + simpl in Hf. assert (fuel = 0%nat) as -> by lia. reflexivity.
  - destruct Hc as [Hn Hc]. split; intros Hf; simpl in Hf.
    + destruct fuel as [|fuel]; [lia|]. simpl. rewrite Hn.
      rewrite (proj1 (IH m Hc fuel (names ++ [n]))) by lia.
      rewrite <- app_assoc. reflexivity.
    + destruct fuel as [|fuel]; [reflexivity|]. simpl. rewrite Hn.
      apply (IH m Hc fuel). lia.
Qed.

(** X6. For an alias chain of any length: when the address bucket binds
    an endpoint to [T] and the alias bucket chains [T] to the aliases
    [ms], the walk ends after exactly [length ms + 1] turns and [add]
    binds the endpoint to [T] and the aliases in order, joined by commas. *)
Theorem add_stores_chain (fuel : nat) (dns : DNS) (r r' : gmap Endpoint string)
    (e : Endpoint) (T : string) (ms : list string) :
  scan_ips (Answers dns) !! e = Some T ->
  alias_chain (scan_cnames (Answers dns)) T ms ->
  add fuel dns r = Some r' ->
  (length ms < fuel)%nat
  /\ name EndpointString r' e = Join (T :: ms) ","
  /\ add_walk (length ms) (scan_cnames (Answers dns)) T [] = None.
Proof.
  intros He Hc Hadd.
  destruct (add_lookup _ _ _ _ _ _ Hadd He) as (names & Hw & Hl).
  pose proof (add_walk_chain _ _ _ Hc) as Hchain.
  assert (Hf : (length ms < fuel)%nat).
  { destruct (Nat.le_gt_cases fuel (length ms)) as [Hle | Hlt]; [|exact Hlt].
    rewrite (proj2 (Hchain fuel []) Hle) in Hw. discriminate Hw. }
  split; [exact Hf|]. split.
  - rewrite (proj1 (Hchain fuel []) Hf) in Hw. injection Hw as <-.
    unfold name. rewrite Hl. reflexivity.
  - apply (proj2 (Hchain (length ms) [])). lia.
Qed.

End more_add.

Lemma add_stores_chain_witness :
  name dotted
    (<[NewIPEndpoint (ParseIP4 216 58 216 14) := "dl.l.google.com,dl.google.com"]>
       newReverseDNSMap)
    (NewIPEndpoint (ParseIP4 216 58 216 14))
  = Join ["dl.l.google.com"; "dl.google.com"] ",".
Proof.
  refine (proj1 (proj2 (add_stores_chain dotted 2 dl_google_answer newReverseDNSMap _
                          (NewIPEndpoint (ParseIP4 216 58 216 14))
                          "dl.l.google.com" ["dl.google.com"] _ _ _))).
  - vm_compute. reflexivity.
  - split; vm_compute; reflexivity.
  - vm_compute. reflexivity.
Defined.


(** ** revdns.go before CNAMEs were followed *)

Module revdns_v1.

(** [r.add(dns)] of the earlier revision: every IN record of type A or
    AAAA binds its address to its name, in the order of the answers. *)
Definition add (dns : DNS) (r : gmap Endpoint string) : gmap Endpoint string :=
  foldl (fun rm a =>
           if (rr_Class a =? DNSClassIN)
              && ((rr_Type a =? DNSTypeA) || (rr_Type a =? DNSTypeAAAA))
           then <[NewIPEndpoint (rr_IP a) := rr_Name a]> rm
           else rm)
        r (Answers dns).

End revdns_v1.

Lemma revdns_v1_add_lookup answers r e :
  revdns_v1.add {| Answers := answers |} r !! e
  = match scan_ips answers !! e with
    | Some n => Some n
    | None => r !! e
    end.
Proof.
  unfold revdns_v1.add. cbn [Answers].
  induction answers as [|a answers IH] using rev_ind; [reflexivity|].
  rewrite foldl_snoc, scan_ips_snoc. fold (is_addr_rr a).
  destruct (is_addr_rr a); [|exact IH].
  rewrite !lookup_insert. case_decide; [reflexivity | exact IH].
Qed.

Lemma scan_cnames_empty answers :
  (forall a, a ∈ answers -> is_cname_rr a = false) -> scan_cnames answers = ∅.
Proof.
  intros H. apply map_eq. intros k. rewrite lookup_empty.
  apply scan_cnames_absent. intros c Hin Hc. rewrite (H c Hin) in Hc. discriminate.
Qed.

(** X7. On an answer without IN CNAME records the two revisions of [add]
    agree: the later one returns, after one turn per address, the map the
    earlier one builds. *)
Theorem add_agrees_with_v1 (fuel : nat) (answers : list DNSResourceRecord)
    (r : gmap Endpoint string) :
  (forall a, a ∈ answers -> is_cname_rr a = false) ->
  (1 <= fuel)%nat ->
  add fuel {| Answers := answers |} r
  = Some (revdns_v1.add {| Answers := answers |} r).
Proof.
  intros Hno Hfuel.
  pose proof (scan_cnames_empty answers Hno) as Hcn.
  destruct (add_returns fuel {| Answers := answers |} r) as [r' Hr'].
  { intros e n _. cbn [Answers]. rewrite Hcn.
    destruct fuel as [|fuel]; [lia|]. rewrite add_walk_unaliased; [eauto|].
    apply lookup_empty. }
  rewrite Hr'. f_equal. apply map_eq. intros e.
  rewrite revdns_v1_add_lookup.
  destruct (scan_ips answers !! e) as [n|] eqn:E.
  - destruct (add_lookup _ _ _ _ _ _ Hr' E) as (names & Hw & ->).
    cbn [Answers] in Hw. rewrite Hcn in Hw.
    destruct fuel as [|fuel]; [lia|].
    rewrite add_walk_unaliased in Hw by apply lookup_empty.
    injection Hw as <-. reflexivity.
  - apply (add_lookup_other _ _ _ _ _ Hr' E).
Qed.

Lemma add_agrees_with_v1_witness :
  add 1 golang_answer newReverseDNSMap
  = Some (revdns_v1.add golang_answer newReverseDNSMap).
Proof.
  apply (add_agrees_with_v1 1 (Answers golang_answer) newReverseDNSMap); [|lia].
  intros a Hin. apply list_elem_of_singleton in Hin as ->. reflexivity.
Defined.

(** ** revdns.go: one map per host *)

Module multiReverseDNS.

(** [maps], from a host to its own map.  The Go map holds pointers, so a
    change made through [hostMap]'s result is a change of the entry. *)
Definition newMultiReverseDNSMap : gmap Endpoint (gmap Endpoint string) := ∅.

(** [m.hostMap(src)]: the host's map, made and stored when there is none;
    with it, the state afterwards. *)
Definition hostMap (m : gmap Endpoint (gmap Endpoint string)) (src : Endpoint)
    : gmap Endpoint (gmap Endpoint string) * gmap Endpoint string :=
  match m !! src with
  | Some rm => (m, rm)
  | None => (<[src := newReverseDNSMap]> m, newReverseDNSMap)
  end.

Definition add (fuel : nat) (m : gmap Endpoint (gmap Endpoint string)) (src : IP)
    (dns : DNS) : option (gmap Endpoint (gmap Endpoint string)) :=
  let '(m', rm) := hostMap m (NewIPEndpoint src) in
  match packets.add fuel dns rm with
  | Some rm' => Some (<[NewIPEndpoint src := rm']> m')
  | None => None
  end.

Definition names (EndpointString : Endpoint -> string)
    (m : gmap Endpoint (gmap Endpoint string)) (src : IP) (flow : Flow)
    : gmap Endpoint (gmap Endpoint string) * (string * string) :=
  let '(m', rm) := hostMap m (NewIPEndpoint src) in
  (m', packets.names EndpointString rm flow).

Definition len (m : gmap Endpoint (gmap Endpoint string)) : nat := size m.

End multiReverseDNS.

Section per_host.

Variable EndpointString : Endpoint -> string.

(** X8. What is learned for one host does not reach another: after
    [add] for the host [srcA], [names] for a host [srcB] with another
    endpoint answers as before; and [names] for [srcA] itself answers from
    the map [packets.add] made of that host's earlier one. *)
Theorem multiReverseDNS_isolation (fuel : nat)
    (m m' : gmap Endpoint (gmap Endpoint string)) (srcA srcB : IP)
    (dns : DNS) (flow : Flow) :
  multiReverseDNS.add fuel m srcA dns = Some m' ->
  (NewIPEndpoint srcB <> NewIPEndpoint srcA ->
   (multiReverseDNS.names EndpointString m' srcB flow).2
   = (multiReverseDNS.names EndpointString m srcB flow).2)
  /\ (exists rm',
        packets.add fuel dns (multiReverseDNS.hostMap m (NewIPEndpoint srcA)).2 = Some rm'
        /\ (multiReverseDNS.names EndpointString m' srcA flow).2
           = packets.names EndpointString rm' flow).
Proof.
  unfold multiReverseDNS.add, multiReverseDNS.names.
  destruct (multiReverseDNS.hostMap m (NewIPEndpoint srcA)) as [m1 rmA] eqn:EA.
  cbn [snd].
  destruct (packets.add fuel dns rmA) as [rm'|] eqn:Eadd; [|discriminate].
  intros [= <-]. split.
  - intros Hne.
    assert (Hm1 : m1 !! NewIPEndpoint srcB = m !! NewIPEndpoint srcB).
    { unfold multiReverseDNS.hostMap in EA.
      destruct (m !! NewIPEndpoint srcA); injection EA as <- <-; [reflexivity|].
      apply lookup_insert_ne. congruence. }
    unfold multiReverseDNS.hostMap.
    rewrite lookup_insert_ne by congruence. rewrite Hm1.
    destruct (m !! NewIPEndpoint srcB); reflexivity.
  - exists rm'. split; [reflexivity|].
    unfold multiReverseDNS.hostMap. rewrite lookup_insert_eq. reflexivity.
Qed.

(** X9. [names] is not a pure read: for a host not met before it stores
    an empty map, so that [len] goes up by one; for a host met before it
    leaves the state as it is.  Asking twice gives the same answer, and
    the second call changes nothing. *)
Theorem multiReverseDNS_names_registers
    (m : gmap Endpoint (gmap Endpoint string)) (src : IP) (flow : Flow) :
  let '(m1, answer1) := multiReverseDNS.names EndpointString m src flow in
  let '(m2, answer2) := multiReverseDNS.names EndpointString m1 src flow in
  multiReverseDNS.len m1
  = match m !! NewIPEndpoint src with
    | Some _ => multiReverseDNS.len m
    | None => S (multiReverseDNS.len m)
    end
  /\ (is_Some (m !! NewIPEndpoint src) -> m1 = m)
  /\ m2 = m1 /\ answer2 = answer1.
Proof.
  unfold multiReverseDNS.names, multiReverseDNS.hostMap, multiReverseDNS.len.
  destruct (m !! NewIPEndpoint src) as [rm|] eqn:E.
  - rewrite E. auto.
  - rewrite lookup_insert_eq. repeat split.
    + apply map_size_insert_None, E.
    + intros [? [=]].
Qed.

End per_host.

Lemma multiReverseDNS_isolation_witness :
  exists rm',
    packets.add 1 golang_answer
      (multiReverseDNS.hostMap multiReverseDNS.newMultiReverseDNSMap
         (NewIPEndpoint [10; 0; 0; 5])).2 = Some rm'
    /\ (multiReverseDNS.names dotted
          (<[NewIPEndpoint [10; 0; 0; 5]
             := <[NewIPEndpoint (ParseIP4 74 125 28 141) := "golang.org"]> newReverseDNSMap]>
             (<[NewIPEndpoint [10; 0; 0; 5] := newReverseDNSMap]>
                multiReverseDNS.newMultiReverseDNSMap))
          [10; 0; 0; 5] (NetworkFlow4 (ip4 dns_google_frame))).2
       = packets.names dotted rm' (NetworkFlow4 (ip4 dns_google_frame)).
Proof.
  refine (proj2 (multiReverseDNS_isolation dotted 1
                   multiReverseDNS.newMultiReverseDNSMap _ [10; 0; 0; 5] [10; 0; 0; 6]
                   golang_answer (NetworkFlow4 (ip4 dns_google_frame)) _)).
  vm_compute. reflexivity.
Defined.

(** ** packets.go: the worker's loop *)

Module worker.

(** What one worker holds and shares: the reverse-DNS map, the counters
    [Account] updates ([main] sets it to [dashboard.AddPacket]), its
    current buffer, the buffer ring, and the buffers it has started a
    [logBuffer] goroutine for, oldest first. *)
Record Worker := {
  w_revDNS : gmap Endpoint string;
  w_vals : dashboard.Values;
  w_buffer : Buffer;
  w_ring : list Buffer;
  w_started : list Buffer
}.

Section loop.

Variable EndpointString : Endpoint -> string.
Variable LocalNetblock : option IPNet.

(** The capacity the runtime picks when [append] has to grow a slice. *)
Variable growslice : Z -> Z.

(** [c.Log != nil], and [c.BufferSize]. *)
Variable hasLog : bool.
Variable BufferSize : Z.

(** [append(buffer, b)]. *)
Definition append (buffer : Buffer) (b : Metadata) : Buffer :=
  {| elems := elems buffer ++ [b];
     cap := if Z.of_nat (length (elems buffer)) <? cap buffer then cap buffer
            else growslice (cap buffer) |}.

(** [buffer := c.nextBuffer()], before the loop. *)
Definition processor_start (rm : gmap Endpoint string) (vals : dashboard.Values)
    (ring : list Buffer) : option Worker :=
  match nextBuffer BufferSize ring with
  | Some (buffer, ring') =>
      Some {| w_revDNS := rm; w_vals := vals; w_buffer := buffer;
              w_ring := ring'; w_started := [] |}
  | None => None
  end.

(** One turn of [for packet := range packetsCh]: build the record, account
    for it, and, when there is a [Log], append it and hand a full buffer
    over. *)
Definition processor_turn (fuel : nat) (w : Worker) (f : Frame) : option Worker :=
  match processor_frame EndpointString fuel (w_revDNS w) f with
  | None => None
  | Some (b, rm) =>
      let vals := dashboard.AddPacket LocalNetblock (w_vals w) b in
      if hasLog then
        let buffer := append (w_buffer w) b in
        if BufferSize <=? Z.of_nat (length (elems buffer)) then
          match nextBuffer BufferSize (w_ring w) with
          | Some (next, ring') =>
              Some {| w_revDNS := rm; w_vals := vals; w_buffer := next;
                      w_ring := ring'; w_started := w_started w ++ [buffer] |}
          | None => None
          end
        else
          Some {| w_revDNS := rm; w_vals := vals; w_buffer := buffer;
                  w_ring := w_ring w; w_started := w_started w |}
      else
        Some {| w_revDNS := rm; w_vals := vals; w_buffer := w_buffer w;
                w_ring := w_ring w; w_started := w_started w |}
  end.

(** What happens while the worker runs: a frame arrives for it, or the
    ring is used by another worker or by a [logBuffer] goroutine. *)
Inductive Happening :=
| Arrives (f : Frame)
| Ring (op : RingOp).

Definition processor_step (fuel : nat) (w : Worker) (h : Happening) : option Worker :=
  match h with
  | Arrives f => processor_turn fuel w f
  | Ring op =>
      Some {| w_revDNS := w_revDNS w; w_vals := w_vals w; w_buffer := w_buffer w;
              w_ring := ring_step BufferSize (w_ring w) op;
              w_started := w_started w |}
  end.

Fixpoint processor_steps (fuel : nat) (w : Worker) (hs : list Happening) : option Worker :=
  match hs with
  | [] => Some w
  | h :: hs' =>
      match processor_step fuel w h with
      | Some w' => processor_steps fuel w' hs'
      | None => None
      end
  end.

(** The buffers [c.Log] is called on by the time the worker has stopped:
    those of the goroutines it started and, from the deferred call, the
    last one, full or not. *)
Definition processor_logged (w : Worker) : list Buffer :=
  if hasLog then w_started w ++ [w_buffer w] else [].

End loop.

End worker.

Section batching.

Import worker.

Variable EndpointString : Endpoint -> string.
Variable LocalNetblock : option IPNet.
Variable growslice : Z -> Z.
Variable BufferSize : Z.
Hypothesis BufferSize_nonneg : 0 <= BufferSize.

Local Abbreviation turn :=
  (processor_turn EndpointString LocalNetblock growslice true BufferSize).
Local Abbreviation steps :=
  (processor_steps EndpointString LocalNetblock growslice true BufferSize).

Definition is_Arrives (h : Happening) : bool :=
  match h with Arrives _ => true | Ring _ => false end.

(** The records the worker has taken in so far, in order. *)
Definition held (w : Worker) : list Metadata :=
  concat (elems <$> w_started w) ++ elems (w_buffer w).

Definition is_full (b : Buffer) : Prop :=
  Z.of_nat (length (elems b)) = Z.max 1 BufferSize.

Record batching_ok (v0 : dashboard.Values) (w : Worker) : Prop := {
  bo_ring : ring_ok (w_ring w);
  bo_vals : w_vals w = dashboard.AddPackets LocalNetblock v0 (held w);
  bo_full : Forall is_full (w_started w);
  bo_room : Z.of_nat (length (elems (w_buffer w))) < Z.max 1 BufferSize
}.

Lemma nextBuffer_ok ring :
  ring_ok ring ->
  exists b ring', nextBuffer BufferSize ring = Some (b, ring')
                  /\ elems b = [] /\ ring_ok ring'.
Proof.
  intros [Hall Hlen]. unfold nextBuffer. destruct ring as [|b ring'].
  - assert (E : (BufferSize <? 0) = false) by (apply Z.ltb_ge; lia).
    rewrite E. eexists _, _. split; [reflexivity|]. split; [reflexivity|].
    split; [constructor | simpl; lia].
  - apply Forall_cons in Hall as [Hb Hall]. exists b, ring'.
    split; [reflexivity|]. split; [apply nil_length_inv, Hb|].
    split; [exact Hall | simpl in Hlen; lia].
Qed.

Lemma held_handed_over w b next :
  elems next = [] ->
  concat (elems <$> (w_started w ++ [append growslice (w_buffer w) b])) ++ elems next
  = held w ++ [b].
Proof.
  intros ->. unfold held. rewrite fmap_app, concat_app. simpl.
  rewrite !app_nil_r, app_assoc. reflexivity.
Qed.

Lemma processor_turn_ok fuel v0 w f w' :
  batching_ok v0 w -> turn fuel w f = Some w' ->
  batching_ok v0 w' /\ exists b, held w' = held w ++ [b].
Proof.
  intros [Hring Hvals Hfull Hroom]. unfold processor_turn.
  destruct (processor_frame EndpointString fuel (w_revDNS w) f) as [[b rm]|];
    [|discriminate].
  cbn [append elems]. rewrite length_app. cbn [length].
  destruct (BufferSize <=? Z.of_nat (length (elems (w_buffer w)) + 1)) eqn:E.
  - destruct (nextBuffer_ok (w_ring w) Hring) as (next & ring' & -> & Hnext & Hring').
    intros [= <-]. unfold held. cbn [w_started w_buffer w_vals w_ring].
    rewrite (held_handed_over w b next Hnext). split; [|eauto].
    split; cbn [w_started w_buffer w_vals w_ring].
    + exact Hring'.
    + unfold held. cbn [w_started w_buffer].
      rewrite (held_handed_over w b next Hnext), AddPackets_snoc, Hvals. reflexivity.
    + apply Forall_app. split; [exact Hfull|]. constructor; [|constructor].
      unfold is_full. cbn [append elems]. rewrite length_app. cbn [length].
      apply Z.leb_le in E. lia.
    + rewrite Hnext. simpl. lia.
  - intros [= <-]. unfold held. cbn [w_started w_buffer w_vals w_ring append elems].
    rewrite app_assoc. split; [|eauto].
    split; cbn [w_started w_buffer w_vals w_ring append elems].
    + exact Hring.
    + unfold held. cbn [w_started w_buffer append elems].
      rewrite app_assoc, AddPackets_snoc, Hvals. reflexivity.
    + exact Hfull.
    + rewrite length_app. cbn [length]. apply Z.leb_gt in E. lia.
Qed.

Lemma processor_steps_ok fuel v0 hs w w' :
  batching_ok v0 w -> steps fuel w hs = Some w' ->
  batching_ok v0 w'
  /\ exists recs, held w' = held w ++ recs /\ length recs = length (filter is_Arrives hs).
Proof.
  revert w. induction hs as [|h hs IH]; intros w Hok H; simpl in H.
  - injection H as <-. split; [exact Hok|]. exists []. rewrite app_nil_r. auto.
  - destruct h as [f | op]; cbn [processor_step] in H.
    + destruct (turn fuel w f) as [w1|] eqn:E1; [|discriminate].
      destruct (processor_turn_ok _ _ _ _ _ Hok E1) as [Hok1 [b Hb]].
      destruct (IH w1 Hok1 H) as [Hok' (recs & Hrecs & Hlen)].
      split; [exact Hok'|]. exists (b :: recs). split.
      * rewrite Hrecs, Hb, <- app_assoc. reflexivity.
      * simpl. rewrite Hlen. reflexivity.
    + match type of H with processor_steps _ _ _ _ _ _ ?w1 _ = _ =>
        assert (Hok1 : batching_ok v0 w1) end.
      { destruct Hok as [Hring Hvals Hfull Hroom].
        split; cbn [w_started w_buffer w_vals w_ring]; try assumption.
        apply ring_step_ok, Hring. }
      destruct (IH _ Hok1 H) as [Hok' (recs & Hrecs & Hlen)].
      split; [exact Hok'|]. exists recs. split; [exact Hrecs | exact Hlen].
Qed.


End batching.

(** Seven frames for a worker whose buffers take three records. *)
Definition seven_arrivals : list worker.Happening :=
  replicate 7 (worker.Arrives follow_up_frame).


(** ** packets.go: the fields of a record *)

Section record_fields.

Variable EndpointString : Endpoint -> string.
Variable fuel : nat.
Variable f : Frame.

Local Abbreviation layers_from := (processor_layers EndpointString fuel f).

(** The header the worker reads the addresses of an IP layer from. *)
Definition ip_header (v6 : bool) : IPHeader := if v6 then ip6 f else ip4 f.

Lemma processor_layers_fixed ls b rm b' rm' :
  layers_from ls (b, rm) = Some (b', rm') ->
  Timestamp b' = Timestamp b /\ Size b' = Size b
  /\ (V6 b' = true <-> V6 b = true \/ LayerTypeIPv6 ∈ ls).
Proof.
  revert b rm. induction ls as [|l ls IH]; intros b rm H; cbn [processor_layers] in H.
  - injection H as <- <-. split; [reflexivity|]. split; [reflexivity|].
    split; [auto|]. intros [H | H]; [exact H|]. apply elem_of_nil in H. destruct H.
  - destruct (processor_layer EndpointString fuel f (b, rm) l) as [[b1 rm1]|] eqn:E;
      [|discriminate].
    destruct (IH _ _ H) as (HT & HS & HV). clear IH H.
    assert (Hl : Timestamp b1 = Timestamp b /\ Size b1 = Size b
                 /\ (V6 b1 = true <-> V6 b = true \/ l = LayerTypeIPv6)).
    { destruct l; simpl in E;
        try destruct (names _ _ _); try destruct (add _ _ _);
        try discriminate; injection E as <- <-; cbn;
        (split; [reflexivity|]); (split; [reflexivity|]);
        (split; [auto|]); intros [? | ?]; auto; discriminate. }
    destruct Hl as (HT1 & HS1 & HV1).
    split; [congruence|]. split; [congruence|].
    rewrite HV, HV1, elem_of_cons. split.
    + intros [[? | ->] | ?]; auto.
    + intros [? | [-> | ?]]; auto.
Qed.

(** The frame's record after its last IP layer: addresses from that
    layer's header, names from the map as it stood at that layer. *)
Lemma processor_frame_last_ip rm b rm' before after v6 :
  decoded f = before ++ [ip_layer v6] ++ after ->
  LayerTypeIPv4 ∉ after -> LayerTypeIPv6 ∉ after ->
  processor_frame EndpointString fuel rm f = Some (b, rm') ->
  exists rm1,
    (LayerTypeDNS ∉ before -> rm1 = rm)
    /\ (SrcName b, DstName b) = names EndpointString rm1 (ip_flow v6 f)
    /\ SrcIP b = hdr_SrcIP (ip_header v6) /\ DstIP b = hdr_DstIP (ip_header v6).
Proof.
  intros Hdec H4 H6. unfold processor_frame. rewrite Hdec.
  set (b0 := {| Timestamp := ci_Timestamp f |}).
  rewrite processor_layers_app.
  destruct (layers_from before (b0, rm)) as [[b1 rm1]|] eqn:E1; [|discriminate].
  cbn [app processor_layers].
  assert (Hip : exists b2,
             processor_layer EndpointString fuel f (b1, rm1) (ip_layer v6) = Some (b2, rm1)
             /\ (SrcName b2, DstName b2) = names EndpointString rm1 (ip_flow v6 f)
             /\ SrcIP b2 = hdr_SrcIP (ip_header v6)
             /\ DstIP b2 = hdr_DstIP (ip_header v6)).
  { destruct v6; cbn [processor_layer ip_layer ip_flow ip_header];
      destruct (names EndpointString rm1 _) as [s d]; eexists; repeat split. }
  destruct Hip as (b2 & -> & Hn & Hs & Hd). intros Hafter.
  destruct (processor_layers_no_ip _ _ _ _ _ _ _ _ H4 H6 Hafter)
    as (Hs' & Hd' & _ & Hsn & Hdn).
  exists rm1. split; [|split; [|split]]; try congruence.
  intros Hno. destruct (processor_layers_no_dns EndpointString fuel f before b0 rm Hno)
    as [b1' Hb1']. rewrite Hb1' in E1. congruence.
Qed.

(** X11. In the record of a frame, [Timestamp] and [Size] come from the
    capture information; [V6] is true exactly when an IPv6 layer decoded,
    anywhere; the addresses are those of the last IP layer decoded, of
    either family; and with no IP layer the addresses are nil, the names
    empty and [V6] false. *)
Theorem processor_frame_fields (rm : gmap Endpoint string) (b : Metadata)
    (rm' : gmap Endpoint string) :
  processor_frame EndpointString fuel rm f = Some (b, rm') ->
  Timestamp b = ci_Timestamp f
  /\ Size b = ci_Length f mod 2 ^ 64
  /\ (V6 b = true <-> LayerTypeIPv6 ∈ decoded f)
  /\ (forall before after v6,
        decoded f = before ++ [ip_layer v6] ++ after ->
        LayerTypeIPv4 ∉ after -> LayerTypeIPv6 ∉ after ->
        SrcIP b = hdr_SrcIP (ip_header v6) /\ DstIP b = hdr_DstIP (ip_header v6))
  /\ (LayerTypeIPv4 ∉ decoded f -> LayerTypeIPv6 ∉ decoded f ->
      SrcIP b = [] /\ DstIP b = [] /\ SrcName b = "" /\ DstName b = "" /\ V6 b = false).
Proof.
  intros H. pose proof H as H0. unfold processor_frame in H0.
  apply processor_layers_fixed in H0 as (HT & HS & HV). cbn in HT, HS, HV.
  split; [exact HT|]. split; [exact HS|]. split; [|split].
  - rewrite HV. split; [intros [? | ?]; [discriminate | assumption] | auto].
  - intros before after v6 Hdec H4 H6.
    destruct (processor_frame_last_ip _ _ _ _ _ _ Hdec H4 H6 H) as (rm1 & _ & _ & Hs & Hd).
    auto.
  - intros H4 H6.
    destruct (processor_frame_no_ip _ _ _ _ _ _ H4 H6 H) as (? & ? & ? & ? & ?). auto.
Qed.

(** X12. A name the map holds for an address serves the frames that
    carry the address, as source or as destination: for a 4-byte address
    in an IPv4 header, and for a 16-byte address not of the IPv4-in-IPv6
    form in an IPv6 header, the key [NewIPEndpoint] makes when an answer
    is learned is the key the frame's flow gives. *)
Theorem processor_frame_resolves (rm : gmap Endpoint string) (b : Metadata)
    (rm' : gmap Endpoint string) (before after : list LayerType) (v6 : bool)
    (I : IP) (N : string) :
  decoded f = before ++ [ip_layer v6] ++ after ->
  LayerTypeDNS ∉ before ->
  LayerTypeIPv4 ∉ after -> LayerTypeIPv6 ∉ after ->
  (if v6 then length I = IPv6len /\ To4 I = None else length I = IPv4len) ->
  rm !! NewIPEndpoint I = Some N ->
  processor_frame EndpointString fuel rm f = Some (b, rm') ->
  (hdr_SrcIP (ip_header v6) = I -> SrcName b = N)
  /\ (hdr_DstIP (ip_header v6) = I -> DstName b = N).
Proof.
  intros Hdec Hdns H4 H6 HI HN H.
  destruct (processor_frame_last_ip _ _ _ _ _ _ Hdec H4 H6 H) as (rm1 & Hrm & Hn & _ & _).
  rewrite (Hrm Hdns) in Hn.
  assert (Hkey : NewIPEndpoint I
                 = NewEndpoint (if v6 then EndpointIPv6 else EndpointIPv4) I).
  { unfold NewIPEndpoint. destruct v6.
    - destruct HI as [Hl ->]. apply Nat.eqb_eq in Hl. rewrite Hl. reflexivity.
    - unfold To4. apply Nat.eqb_eq in HI. rewrite HI. reflexivity. }
  rewrite Hkey in HN.
  unfold names, Endpoints, name in Hn. injection Hn as Hs Hd.
  split; intros HE.
  - rewrite Hs. destruct v6; cbn [ip_flow ip_header NetworkFlow4 NetworkFlow6 flow_typ flow_src] in *;
      rewrite HE, HN; reflexivity.
  - rewrite Hd. destruct v6; cbn [ip_flow ip_header NetworkFlow4 NetworkFlow6 flow_typ flow_dst] in *;
      rewrite HE, HN; reflexivity.
Qed.

End record_fields.

(** An IPv4 packet carried in IPv6, and the record the worker builds. *)
Definition tunnel_frame : Frame :=
  {| decoded := [LayerTypeEthernet; LayerTypeIPv6; LayerTypeIPv4; LayerTypeTCP];
     ci_Timestamp := 5; ci_Length := 120;
     ip4 := {| hdr_SrcIP := [10; 0; 0; 1]; hdr_DstIP := [8; 8; 8; 8] |};
     ip6 := {| hdr_SrcIP := 253 :: replicate 15 1; hdr_DstIP := 253 :: replicate 15 2 |};
     tcp := {| hdr_SrcPort := 40000; hdr_DstPort := 443 |};
     udp := {| hdr_SrcPort := 0; hdr_DstPort := 0 |};
     dns := {| Answers := [] |} |}.

Definition tunnel_record : Metadata :=
  {| Timestamp := 5; Size := 120;
     SrcName := "10.0.0.1"; DstName := "8.8.8.8";
     SrcIP := [10; 0; 0; 1]; DstIP := [8; 8; 8; 8];
     SrcPort := 40000; DstPort := 443; V6 := true |}.

Lemma processor_frame_fields_witness :
  (V6 tunnel_record = true <-> LayerTypeIPv6 ∈ decoded tunnel_frame)
  /\ SrcIP tunnel_record = hdr_SrcIP (ip4 tunnel_frame).
Proof.
  assert (H : processor_frame dotted 1 newReverseDNSMap tunnel_frame
              = Some (tunnel_record, newReverseDNSMap)) by (vm_compute; reflexivity).
  destruct (processor_frame_fields dotted 1 tunnel_frame _ _ _ H)
    as (_ & _ & HV & Hlast & _).
  split; [exact HV|].
  refine (proj1 (Hlast [LayerTypeEthernet; LayerTypeIPv6] [LayerTypeTCP] false
                   eq_refl _ _));
    intros Hin; apply list_elem_of_singleton in Hin; discriminate Hin.
Defined.

(** The record of the frame that follows the learning of [dns.google]. *)
Definition named_record : Metadata :=
  {| Timestamp := 1; Size := 1500;
     SrcName := "dns.google"; DstName := "10.0.0.7";
     SrcIP := [8; 8; 8; 8]; DstIP := [10; 0; 0; 7];
     SrcPort := 443; DstPort := 52000; V6 := false |}.

Lemma processor_frame_resolves_witness : SrcName named_record = "dns.google".
Proof.
  assert (H : processor_frame dotted 1 newer_names follow_up_frame
              = Some (named_record, newer_names)) by (vm_compute; reflexivity).
  refine (proj1 (processor_frame_resolves dotted 1 follow_up_frame newer_names
                   named_record newer_names [LayerTypeEthernet]
                   [LayerTypeTCP; LayerTypePayload] false [8; 8; 8; 8] "dns.google"
                   eq_refl _ _ _ eq_refl _ H) eq_refl).
  - intros Hin. apply list_elem_of_singleton in Hin. discriminate Hin.
  - intros Hin. apply elem_of_cons in Hin as [Hin | Hin]; [discriminate Hin|].
    apply list_elem_of_singleton in Hin. discriminate Hin.
  - intros Hin. apply elem_of_cons in Hin as [Hin | Hin]; [discriminate Hin|].
    apply list_elem_of_singleton in Hin. discriminate Hin.
  - vm_compute. reflexivity.
Defined.

(** ** main.go: how long the writer waits, and its earlier revision *)

Module main_v1.

(** [writePackets] of the earlier revision: one post, no retry. *)
Definition writePackets (post : nat -> main.PostResult) (data : list Metadata)
    : list main.Event :=
  if (length data =? 0)%nat then []
  else main.LogWriting (length data)
       :: main.Post data
       :: match post 0%nat with
          | main.TransportError => [main.LogError]
          | main.Response status => [main.LogStatus status]
          end.

End main_v1.

Section waiting.

Import main.

Variable post : nat -> PostResult.
Variable Int63n : nat -> Z -> Z.
Hypothesis Int63n_range : forall i n, 0 < n -> 0 <= Int63n i n < n.

(** The time [writePackets] spends in [time.After], in nanoseconds. *)
Definition total_wait (trace : list Event) : Z :=
  foldr (fun e acc => match e with Wait d => d + acc | _ => acc end) 0 trace.

Lemma int64_wait i :
  (i < 5)%nat ->
  wrap_int64 (backoff i + Int63n i (backoff i)) = backoff i + Int63n i (backoff i)
  /\ 0 <= Int63n i (backoff i) < backoff i.
Proof.
  intros Hi.
  assert (Hb : 0 < backoff i <= 1600000000).
  { do 5 (destruct i as [|i]; [vm_compute; split; [reflexivity | discriminate]|]). lia. }
  pose proof (Int63n_range i (backoff i) (proj1 Hb)) as Hr.
  split; [apply wrap_int64_small; lia | exact Hr].
Qed.

(** X13. The waits of one [writePackets] call add up to at least
    [100 ms * (2^k - 1)] and to less than twice that, [k] being the number
    of posts that failed in a row (at most 5): nothing without a failure,
    and never as much as 6.2 seconds. *)
Theorem writePackets_total_wait (data : list Metadata) :
  let k := leading_errors post influxRetryLimit 0 in
  let waited := total_wait (writePackets post Int63n data) in
  (data <> [] ->
   100 * Millisecond * (2 ^ Z.of_nat k - 1) <= waited
   /\ (k <> 0%nat -> waited < 2 * (100 * Millisecond * (2 ^ Z.of_nat k - 1))))
  /\ (k = 0%nat -> waited = 0)
  /\ 0 <= waited < 6200 * Millisecond.
Proof.
  cbv zeta. unfold writePackets, influxRetryLimit.
  destruct data as [|m data'];
    [cbn; unfold Millisecond; split; [congruence|]; split; [auto | lia]|].
  cbn [length Nat.eqb]. change (wrap_int64 (100 * Millisecond)) with (backoff 0).
  pose proof (int64_wait 0 ltac:(lia)) as [E0 R0].
  pose proof (int64_wait 1 ltac:(lia)) as [E1 R1].
  pose proof (int64_wait 2 ltac:(lia)) as [E2 R2].
  pose proof (int64_wait 3 ltac:(lia)) as [E3 R3].
  pose proof (int64_wait 4 ltac:(lia)) as [E4 R4].
  cbn [writePackets_loop leading_errors].
  change (wrap_int64 (backoff 0 * 2)) with (backoff 1).
  change (wrap_int64 (backoff 1 * 2)) with (backoff 2).
  change (wrap_int64 (backoff 2 * 2)) with (backoff 3).
  change (wrap_int64 (backoff 3 * 2)) with (backoff 4).
  rewrite E0, E1, E2, E3, E4.
  change (backoff 0) with 100000000 in *. change (backoff 1) with 200000000 in *.
  change (backoff 2) with 400000000 in *. change (backoff 3) with 800000000 in *.
  change (backoff 4) with 1600000000 in *.
  change Millisecond with 1000000.
  generalize dependent (Int63n 0 100000000). generalize dependent (Int63n 1 200000000).
  generalize dependent (Int63n 2 400000000). generalize dependent (Int63n 3 800000000).
  generalize dependent (Int63n 4 1600000000). intros j4 _ R4 j3 _ R3 j2 _ R2 j1 _ R1 j0 _ R0.
  destruct (post 0%nat); [|cbn; lia].
  destruct (post 1%nat); [|cbn; lia].
  destruct (post 2%nat); [|cbn; lia].
  destruct (post 3%nat); [|cbn; lia].
  destruct (post 4%nat); cbn; lia.
Qed.

(** X14. The retrying [writePackets] begins as the earlier single-shot one
    did: its trace starts with the earlier one's, and is the same when the
    first post gets a response or the batch is empty. *)
Theorem writePackets_extends_v1 (data : list Metadata) :
  exists rest,
    writePackets post Int63n data = main_v1.writePackets post data ++ rest
    /\ ((data = [] \/ exists status, post 0%nat = Response status) -> rest = []).
Proof.
  unfold writePackets, main_v1.writePackets, influxRetryLimit.
  destruct data as [|m data']; [exists []; auto|].
  cbn [length Nat.eqb writePackets_loop].
  destruct (post 0%nat) as [|status] eqn:E.
  - eexists. split; [reflexivity|]. intros [? | [? ?]]; congruence.
  - exists []. split; [reflexivity | auto].
Qed.

End waiting.

Lemma writePackets_total_wait_witness :
  100 * main.Millisecond * (2 ^ Z.of_nat (leading_errors flaky_sink main.influxRetryLimit 0) - 1)
  <= total_wait (main.writePackets flaky_sink no_jitter [no_ip_record]).
Proof.
  assert (Hrange : forall (i : nat) (n : Z), 0 < n -> 0 <= no_jitter i n < n)
    by (intros i n Hn; unfold no_jitter; lia).
  refine (proj1 (proj1 (writePackets_total_wait flaky_sink no_jitter Hrange [no_ip_record]) _)).
  discriminate.
Defined.

(** ** revdns.go: when [add] returns, and adding twice *)

Section add_again.

Lemma add_walk_Some_chain cnames fuel n acc res :
  add_walk fuel cnames n acc = Some res ->
  exists ms, alias_chain cnames n ms /\ res = acc ++ n :: ms.
Proof.
  revert n acc. induction fuel as [|fuel IH]; intros n acc H; [discriminate H|].
  simpl in H. destruct (cnames !! n) as [n'|] eqn:E.
  - destruct (IH _ _ H) as (ms & Hc & ->). exists (n' :: ms). split.
    + simpl. auto.
    + rewrite <- app_assoc. reflexivity.
  - injection H as <-. exists []. split; [exact E | reflexivity].
Qed.

Lemma bounded_chains cnames (entries : list (Endpoint * string)) :
  (forall e n, (e, n) ∈ entries -> exists ms, alias_chain cnames n ms) ->
  exists K, forall e n, (e, n) ∈ entries ->
                        exists ms, alias_chain cnames n ms /\ (length ms <= K)%nat.
Proof.
  induction entries as [|[e0 n0] rest IH]; intros H.
  - exists 0%nat. intros e n Hin. apply elem_of_nil in Hin. destruct Hin.
  - destruct IH as [K HK]. { intros e n Hin. apply (H e n). right. exact Hin. }
    destruct (H e0 n0) as [ms0 Hms0]; [left|].
    exists (Nat.max K (length ms0)). intros e n Hin.
    apply elem_of_cons in Hin as [[= -> ->] | Hin].
    + exists ms0. split; [exact Hms0 | lia].
    + destruct (HK e n Hin) as (ms & Hms & Hle). exists ms. split; [exact Hms | lia].
Qed.

(** X15. [add] returns, for some number of turns, exactly when every name
    an IN address record of the answer binds has a finite chain of
    aliases above it; a chain that runs into a cycle keeps it from
    returning, whatever the map holds. *)
Theorem add_returns_iff_chains (dns : DNS) (r : gmap Endpoint string) :
  (exists fuel, is_Some (add fuel dns r))
  <-> (forall e n, scan_ips (Answers dns) !! e = Some n ->
                   exists ms, alias_chain (scan_cnames (Answers dns)) n ms).
Proof.
  split.
  - intros [fuel [r' Hr']] e n He.
    destruct (add_lookup _ _ _ _ _ _ Hr' He) as (names & Hw & _).
    destruct (add_walk_Some_chain _ _ _ _ _ Hw) as (ms & Hms & _). eauto.
  - intros H.
    destruct (bounded_chains (scan_cnames (Answers dns))
                (map_to_list (scan_ips (Answers dns)))) as [K HK].
    { intros e n Hin. apply (H e). apply elem_of_map_to_list. exact Hin. }
    exists (S K). apply add_returns. intros e n He.
    destruct (HK e n) as (ms & Hms & Hle); [apply elem_of_map_to_list; exact He|].
    rewrite (proj1 (add_walk_chain _ _ _ Hms (S K) [])) by lia. eauto.
Qed.

(** X16. Adding the same answer again changes nothing: after [add] has
    returned, a second [add] of that answer returns the same map. *)
Theorem add_twice (fuel : nat) (dns : DNS) (r r' : gmap Endpoint string) :
  add fuel dns r = Some r' -> add fuel dns r' = Some r'.
Proof.
  intros Hadd.
  destruct (add_returns fuel dns r') as [r'' Hr''].
  { intros e n He. destruct (add_lookup _ _ _ _ _ _ Hadd He) as (names & -> & _). eauto. }
  rewrite Hr''. f_equal. apply map_eq. intros e.
  destruct (scan_ips (Answers dns) !! e) as [n|] eqn:E.
  - destruct (add_lookup _ _ _ _ _ _ Hadd E) as (names1 & Hw1 & ->).
    destruct (add_lookup _ _ _ _ _ _ Hr'' E) as (names2 & Hw2 & ->).
    congruence.
  - apply (add_lookup_other _ _ _ _ _ Hr'' E).
Qed.

End add_again.

Lemma add_twice_witness :
  add 2 dl_google_answer
    (<[NewIPEndpoint (ParseIP4 216 58 216 14) := "dl.l.google.com,dl.google.com"]>
       newReverseDNSMap)
  = Some (<[NewIPEndpoint (ParseIP4 216 58 216 14) := "dl.l.google.com,dl.google.com"]>
            newReverseDNSMap).
Proof.
  apply (add_twice 2 dl_google_answer newReverseDNSMap). vm_compute. reflexivity.
Defined.
